(** * The full-duplex CLI wrapper of scripts/test_cc_cli_multiplex.py

    A shallow embedding of [ClaudeCLIWrapper]: the wrapper object, the child
    process it drives, the queue fed by the reader thread of the primary
    stream, the logger, the senders, the wait loop and [stop], followed by
    their properties.

    The methods are computations on a [world]: the fields of the wrapper,
    the wall clock, and what has been logged and printed.  They yield a
    value or raise, as the Python methods do.  What the surroundings do while
    [wait_for_result] loops (the clock moving, lines arriving from the child,
    the child exiting) is given pass by pass as a schedule of [tick]s; the
    loop is a function of the schedule, and [Waiting] is its answer when the
    schedule ends with the loop still turning.  Time is rational seconds.
    Log calls are kept as records of their level and of the values put in
    the message, not as the formatted text.  [json.loads] is a parameter of
    the wait loop: a function from a line to the value it returns or the
    exception it raises.  The logger thread of the diagnostic stream is a
    function of a schedule of its own.  The pipe to the child is a text
    stream that encodes what is written to it in UTF-8. *)

From Stdlib Require Import List ZArith NArith QArith Bool Lia String Ascii.
From Stdlib Require Import Lqa DecimalString.
Import ListNotations.

Set Warnings "-register-all".
Local Open Scope Z_scope.

(** ** Python strings

    A Python [str] is a sequence of Unicode code points. *)

Definition pystr := list N.

(** An ASCII literal as a [str]. *)
Definition U (s : string) : pystr :=
  map N_of_ascii (list_ascii_of_string s).

Fixpoint str_eqb (a b : pystr) : bool :=
  match a, b with
  | [], [] => true
  | x :: a', y :: b' => N.eqb x y && str_eqb a' b'
  | _, _ => false
  end.

(** [str.isspace] on one character: the code points with bidirectional type
    WS, B or S, or category Zs. *)
Definition is_space (c : N) : bool :=
  ((9 <=? c) && (c <=? 13) || (28 <=? c) && (c <=? 32) ||
   (c =? 133) || (c =? 160) || (c =? 5760) ||
   (8192 <=? c) && (c <=? 8202) || (c =? 8232) || (c =? 8233) ||
   (c =? 8239) || (c =? 8287) || (c =? 12288))%N.

Fixpoint lstrip (s : pystr) : pystr :=
  match s with
  | c :: s' => if is_space c then lstrip s' else s
  | [] => []
  end.

(** [s.strip()] *)
Definition strip (s : pystr) : pystr :=
  rev (lstrip (rev (lstrip s))).

(** Truth value of a [str]: non-empty. *)
Definition truthy (s : pystr) : bool :=
  match s with [] => false | _ :: _ => true end.

(** A surrogate code point, [U+D800] to [U+DFFF].  A [str] may hold one on
    its own; UTF-8 has no bytes for it. *)
Definition is_surrogate (c : N) : bool :=
  ((55296 <=? c) && (c <=? 57343))%N.

(** [s.encode("utf-8")] goes through: no character of [s] is a surrogate. *)
Definition encodable (s : pystr) : bool :=
  forallb (fun c => negb (is_surrogate c)) s.
Arguments encodable : simpl never.

(** ** JSON values

    What [json.loads] returns and [json.dumps] accepts: [None], [bool],
    [int], [float], [str], [list] and [dict] with [str] keys.  A [dict] keeps
    its insertion order, which [json.dumps] follows, so it is an association
    list.  A [float] is kept as the text of its [repr]. *)

Inductive json : Type :=
| JNull
| JBool (b : bool)
| JInt (n : Z)
| JFloat (repr : pystr)
| JStr (s : pystr)
| JArr (items : list json)
| JObj (fields : list (pystr * json)).

Fixpoint assoc (k : pystr) (kvs : list (pystr * json)) : option json :=
  match kvs with
  | [] => None
  | (k', v) :: rest => if str_eqb k' k then Some v else assoc k rest
  end.

(** [v == s] for a string literal [s]. *)
Definition is_str (v : json) (s : pystr) : bool :=
  match v with
  | JStr x => str_eqb x s
  | _ => false
  end.

(** *** [json.dumps] with its default arguments

    [ensure_ascii=True], item separator [", "], key separator [": "]. *)

Definition hex_digit (d : N) : N :=
  (if d <? 10 then 48 + d else 87 + d)%N.

(** ['\\u{0:04x}'.format(n)] *)
Definition u_escape (n : N) : pystr :=
  U "\u" ++ [hex_digit ((n / 4096) mod 16); hex_digit ((n / 256) mod 16);
             hex_digit ((n / 16) mod 16); hex_digit (n mod 16)].

(** One character under [ESCAPE_ASCII]: everything outside [' '..'~'], the
    quote and the backslash are escaped; code points above the basic plane
    become a surrogate pair.  (In the literals here a backslash is a
    character like any other: each is a backslash and a letter.) *)
Definition escape_char (c : N) : pystr :=
  (if c =? 34 then [92; 34]
   else if c =? 92 then [92; 92]
   else if c =? 10 then U "\n"
   else if c =? 13 then U "\r"
   else if c =? 9 then U "\t"
   else if c =? 8 then U "\b"
   else if c =? 12 then U "\f"
   else if (32 <=? c) && (c <=? 126) then [c]
   else if c <? 65536 then u_escape c
   else
     let n := c - 65536 in
     u_escape (N.lor 55296 (N.land (N.shiftr n 10) 1023)) ++
     u_escape (N.lor 56320 (N.land n 1023)))%N.

(** [py_encode_basestring_ascii] *)
Definition encode_basestring_ascii (s : pystr) : pystr :=
  [34%N] ++ flat_map escape_char s ++ [34%N].

Definition int_repr (n : Z) : pystr :=
  U (NilZero.string_of_int (Z.to_int n)).

Fixpoint join (sep : pystr) (parts : list pystr) : pystr :=
  match parts with
  | [] => []
  | [p] => p
  | p :: rest => p ++ sep ++ join sep rest
  end.

Fixpoint json_dumps (v : json) : pystr :=
  match v with
  | JNull => U "null"
  | JBool true => U "true"
  | JBool false => U "false"
  | JInt n => int_repr n
  | JFloat r => r
  | JStr s => encode_basestring_ascii s
  | JArr items => U "[" ++ join (U ", ") (map json_dumps items) ++ U "]"
  | JObj fields =>
      U "{" ++
      join (U ", ")
        (map (fun kv => encode_basestring_ascii (fst kv) ++ U ": " ++
                        json_dumps (snd kv)) fields) ++
      U "}"
  end.

(** ** Exceptions, log records and console output *)

Inductive exn : Type :=
| AttributeError      (* attribute access on an object that lacks it *)
| TypeError           (* iteration over a non-iterable *)
| BrokenPipeError     (* write to a pipe whose reader is gone *)
| TimeoutExpired      (* [Popen.wait(timeout)] ran out *)
| UnicodeEncodeError  (* text that the encoding of a stream cannot take *)
| JSONDecodeError     (* [json.loads] on a text that is no JSON *)
| ValueError          (* [json.loads] on an integer literal beyond the
                         limit of [int] on the length of a conversion *)
| RecursionError.     (* [json.loads] on a text nested too deep *)

Inductive level : Type := INFO | WARNING | ERROR.

(** The records handed to [logger], one constructor per call site, with the
    values interpolated into the message. *)
Inductive message : Type :=
| MsgStart (session permission : pystr)      (* start *)
| MsgNotRunning                              (* send_raw, process gone *)
| MsgInject (payload_str : pystr)            (* send_raw *)
| MsgBrokenPipe                              (* send_raw *)
| MsgWaiting                                 (* wait_for_result, entry *)
| MsgTimeout                                 (* wait_for_result *)
| MsgExited (returncode : Z)                 (* wait_for_result *)
| MsgToolUse (name input : json)             (* wait_for_result *)
| MsgNestedToolUse (name input : json)       (* wait_for_result *)
| MsgErrorEvent (err_msg : json)             (* wait_for_result *)
| MsgDone (duration_ms : json)               (* wait_for_result *)
| MsgNonJson (line : pystr)                  (* wait_for_result *)
| MsgAlive                                   (* check_status *)
| MsgDead (code : Z).                        (* check_status *)

Inductive output : Type :=
| Log (lvl : level) (msg : message)
| Stdout (text : pystr).

(** ** The child process and the wrapper *)

(** The write end of the child's standard input.  [pending] is what has been
    written and not flushed, [delivered] what has reached the child. *)
Record pipe : Type := mkPipe {
  broken : bool;
  pending : pystr;
  delivered : pystr
}.

(** A [subprocess.Popen] handle.  [exit_status] is what [poll()] reports
    ([None] while the child runs) and what [returncode] holds after a poll.
    [on_sigterm] is the child's answer to a terminate signal: [Some (d, c)]
    when it exits [d] seconds later with status [c], [None] when it keeps
    running. *)
Record popen : Type := mkPopen {
  exit_status : option Z;
  stdin : pipe;
  sigterm : nat;
  on_sigterm : option (Q * Z)
}.

(** The wrapper object ([self]) followed by its surroundings: the wall clock
    read by [time.time()] and everything logged or printed so far. *)
Record world : Type := mkWorld {
  session_id : pystr;
  process : option popen;
  stdout_queue : list pystr;
  stderr_queue : list pystr;
  running : bool;
  event_log : list json;
  clock : Q;
  emitted : list output
}.

Definition set_process (p : option popen) (w : world) : world :=
  mkWorld (session_id w) p (stdout_queue w) (stderr_queue w) (running w)
          (event_log w) (clock w) (emitted w).

Definition set_stdout_queue (q : list pystr) (w : world) : world :=
  mkWorld (session_id w) (process w) q (stderr_queue w) (running w)
          (event_log w) (clock w) (emitted w).

Definition set_running (b : bool) (w : world) : world :=
  mkWorld (session_id w) (process w) (stdout_queue w) (stderr_queue w) b
          (event_log w) (clock w) (emitted w).

Definition set_event_log (l : list json) (w : world) : world :=
  mkWorld (session_id w) (process w) (stdout_queue w) (stderr_queue w)
          (running w) l (clock w) (emitted w).

Definition set_clock (t : Q) (w : world) : world :=
  mkWorld (session_id w) (process w) (stdout_queue w) (stderr_queue w)
          (running w) (event_log w) t (emitted w).

Definition set_emitted (o : list output) (w : world) : world :=
  mkWorld (session_id w) (process w) (stdout_queue w) (stderr_queue w)
          (running w) (event_log w) (clock w) o.

Definition set_exit_status (c : option Z) (p : popen) : popen :=
  mkPopen c (stdin p) (sigterm p) (on_sigterm p).

Definition set_stdin (i : pipe) (p : popen) : popen :=
  mkPopen (exit_status p) i (sigterm p) (on_sigterm p).

(** ** Computations: state and exceptions

    A method runs on the world and either yields a value or raises; what it
    did to the world before raising stays done. *)

Inductive result (A : Type) : Type :=
| Ok (a : A)
| Exc (e : exn).
Arguments Ok {A} a.
Arguments Exc {A} e.

Definition M (A : Type) : Type := world -> result A * world.

Definition ret {A} (a : A) : M A := fun w => (Ok a, w).

Definition raise {A} (e : exn) : M A := fun w => (Exc e, w).

Definition bind {A B} (c : M A) (k : A -> M B) : M B :=
  fun w =>
    match c w with
    | (Ok a, w') => k a w'
    | (Exc e, w') => (Exc e, w')
    end.

Definition exn_eqb (a b : exn) : bool :=
  match a, b with
  | AttributeError, AttributeError
  | TypeError, TypeError
  | BrokenPipeError, BrokenPipeError
  | TimeoutExpired, TimeoutExpired
  | UnicodeEncodeError, UnicodeEncodeError
  | JSONDecodeError, JSONDecodeError
  | ValueError, ValueError
  | RecursionError, RecursionError => true
  | _, _ => false
  end.

(** [try: c  except e: h].  The handlers of the script name
    [BrokenPipeError] and [json.JSONDecodeError], which have no subclasses
    among the exceptions here. *)
Definition try_except {A} (c : M A) (e : exn) (h : M A) : M A :=
  fun w =>
    match c w with
    | (Ok a, w') => (Ok a, w')
    | (Exc e', w') => if exn_eqb e e' then h w' else (Exc e', w')
    end.

Declare Scope py_scope.
Delimit Scope py_scope with py.
Notation "x <- c ;; k" := (bind c (fun x => k))
  (at level 61, c at next level, right associativity) : py_scope.
Notation "c ;; k" := (bind c (fun _ => k))
  (at level 61, right associativity) : py_scope.
Local Open Scope py_scope.

Definition modify (f : world -> world) : M unit := fun w => (Ok tt, f w).

Definition read {A} (f : world -> A) : M A := fun w => (Ok (f w), w).

Definition logger (lvl : level) (msg : message) : M unit :=
  modify (fun w => set_emitted (emitted w ++ [Log lvl msg]) w).

Definition sys_stdout_write (text : pystr) : M unit :=
  modify (fun w => set_emitted (emitted w ++ [Stdout text]) w).

Definition time_time : M Q := read clock.

(** A call of a function that leaves the world alone and returns or
    raises. *)
Definition call {A} (r : result A) : M A := fun w => (r, w).

(** [self.process.<attr>]: [None] has no attributes. *)
Definition self_process : M popen :=
  fun w =>
    match process w with
    | Some p => (Ok p, w)
    | None => (Exc AttributeError, w)
    end.

Definition update_process (f : popen -> popen) : M unit :=
  modify (fun w => set_process (option_map f (process w)) w).

(** [self.process.poll()] *)
Definition Popen_poll : M (option Z) :=
  p <- self_process ;; ret (exit_status p).

(** [d.get]: only a [dict] has the method. *)
Definition get_method (d : json) : M (pystr -> json -> json) :=
  match d with
  | JObj fields =>
      ret (fun key default =>
             match assoc key fields with Some v => v | None => default end)
  | _ => raise AttributeError
  end.

(** [d.get(key, default)] *)
Definition dict_get (d : json) (key : pystr) (default : json) : M json :=
  get <- get_method d ;; ret (get key default).

(** The items a [for] loop draws from a value: the elements of a list, the
    characters of a string, the keys of a dict; nothing else iterates. *)
Definition py_iter (v : json) : M (list json) :=
  match v with
  | JArr items => ret items
  | JStr s => ret (map (fun c => JStr [c]) s)
  | JObj fields => ret (map (fun kv => JStr (fst kv)) fields)
  | _ => raise TypeError
  end.

Fixpoint for_each {A} (xs : list A) (body : A -> M unit) : M unit :=
  match xs with
  | [] => ret tt
  | x :: rest => body x ;; for_each rest body
  end.

Definition newline : pystr := [10%N].

(** ** The standard-input pipe and the process handle *)

(** [self.process.stdin.write(s)].  With [text=True] the pipe is a text
    stream: it encodes [s] first, and raises [UnicodeEncodeError] before
    anything goes to the pipe when [s] has no encoding. *)
Definition stdin_write (s : pystr) : M unit :=
  p <- self_process ;;
  if negb (encodable s) then raise UnicodeEncodeError
  else if broken (stdin p) then raise BrokenPipeError
  else update_process
         (fun p => set_stdin (mkPipe (broken (stdin p))
                                     (pending (stdin p) ++ s)
                                     (delivered (stdin p))) p).

(** [self.process.stdin.flush()] *)
Definition stdin_flush : M unit :=
  p <- self_process ;;
  if broken (stdin p) then raise BrokenPipeError
  else update_process
         (fun p => set_stdin (mkPipe (broken (stdin p)) []
                                     (delivered (stdin p) ++ pending (stdin p)))
                             p).

(** [self.process.terminate()]: the signal goes out only to a child that has
    not exited. *)
Definition Popen_terminate : M unit :=
  p <- self_process ;;
  match exit_status p with
  | Some _ => ret tt
  | None =>
      update_process
        (fun p => mkPopen (exit_status p) (stdin p) (S (sigterm p))
                          (on_sigterm p))
  end.

Definition advance (d : Q) : M unit :=
  modify (fun w => set_clock (clock w + d)%Q w).

(** [self.process.wait(timeout=t)]: returns at once for a child that has
    exited, otherwise blocks until it exits or [t] seconds have passed. *)
Definition Popen_wait (t : Q) : M Z :=
  p <- self_process ;;
  match exit_status p with
  | Some c => ret c
  | None =>
      match (if Nat.ltb 0 (sigterm p) then on_sigterm p else None) with
      | Some (d, c) =>
          if Qle_bool d t then
            advance d ;;
            update_process (set_exit_status (Some c)) ;;
            ret c
          else advance t ;; raise TimeoutExpired
      | None => advance t ;; raise TimeoutExpired
      end
  end.

(** ** The surroundings of one pass of the wait loop

    Between two passes of the loop the clock moves, the reader thread of the
    primary stream reads lines from the child, and the child may exit. *)
Record tick : Type := mkTick {
  t_clock : Q;              (* what [time.time()] reads during the pass *)
  t_lines : list pystr;     (* lines the reader thread has read from the
                               child's stdout since the pass before, up to
                               the end of the timed [get] of this pass *)
  t_exit : option Z         (* the child exits with this status *)
}.

(** [_reader_thread]: [if line: q.put(line.strip())] *)
Definition reader_put (q : list pystr) (line : pystr) : list pystr :=
  if truthy line then q ++ [strip line] else q.

Definition child_exit (c : option Z) (p : popen) : popen :=
  match exit_status p with
  | Some _ => p
  | None => set_exit_status c p
  end.

Definition happen (tk : tick) (w : world) : world :=
  set_clock (t_clock tk)
    (set_stdout_queue (fold_left reader_put (t_lines tk) (stdout_queue w))
       (set_process (option_map (child_exit (t_exit tk)) (process w)) w)).

(** ** The methods of [ClaudeCLIWrapper] *)

(** [__init__]: [uuid4] is the identifier drawn when none is given. *)
Definition init (session_id : option pystr) (uuid4 : pystr) (now : Q) : world :=
  mkWorld (match session_id with
           | Some s => if truthy s then s else uuid4
           | None => uuid4
           end)
          None [] [] false [] now [].

(** [start]: [child] is the process [subprocess.Popen] has spawned. *)
Definition start (permission_mode : pystr) (child : popen) : M unit :=
  sid <- read session_id ;;
  logger INFO (MsgStart sid permission_mode) ;;
  modify (set_process (Some child)) ;;
  modify (set_running true).

Definition send_raw (payload_str : pystr) : M bool :=
  proc <- read process ;;
  gone <- match proc with
          | None => ret true
          | Some _ =>
              code <- Popen_poll ;;
              ret (match code with Some _ => true | None => false end)
          end ;;
  if (gone : bool) then logger ERROR MsgNotRunning ;; ret false
  else
    logger INFO (MsgInject payload_str) ;;
    try_except
      (stdin_write (payload_str ++ newline) ;;
       stdin_flush ;;
       ret true)
      BrokenPipeError
      (logger ERROR MsgBrokenPipe ;; ret false).

Definition payload (text : pystr) : json :=
  JObj [(U "type", JStr (U "user"));
        (U "message",
         JObj [(U "role", JStr (U "user"));
               (U "content",
                JArr [JObj [(U "type", JStr (U "text"));
                            (U "text", JStr text)]])])].

Definition send_message (text : pystr) : M bool :=
  send_raw (json_dumps (payload text)).

Definition check_status : M bool :=
  code <- Popen_poll ;;
  match code with
  | None => logger INFO MsgAlive ;; ret true
  | Some c => logger ERROR (MsgDead c) ;; ret false
  end.

Definition stop : M unit :=
  modify (set_running false) ;;
  proc <- read process ;;
  match proc with
  | None => ret tt
  | Some _ =>
      code <- Popen_poll ;;
      match code with
      | Some _ => ret tt
      | None => Popen_terminate ;; Popen_wait 5 ;; ret tt
      end
  end.

(** [self.stdout_queue.get(timeout=0.2)]: the oldest line, [None] for
    [queue.Empty]. *)
Definition stdout_queue_get : M (option pystr) :=
  fun w =>
    match stdout_queue w with
    | [] => (Ok None, w)
    | line :: rest => (Ok (Some line), set_stdout_queue rest w)
    end.

(** How one pass of [while True] ends. *)
Inductive ctl : Type :=
| Continue (events : list json)
| Return (ok : bool) (events : list json).

(** The [if]/[elif] chain on [e_type]. *)
Definition classify (event e_type : json) (events : list json) : M ctl :=
  if is_str e_type (U "thinking") || is_str e_type (U "status") then
    sys_stdout_write (U ".") ;;
    ret (Continue events)
  else if is_str e_type (U "tool_use") then
    name <- dict_get event (U "name") JNull ;;
    input <- dict_get event (U "input") JNull ;;
    logger INFO (MsgToolUse name input) ;;
    ret (Continue events)
  else if is_str e_type (U "assistant") || is_str e_type (U "user") then
    msg <- dict_get event (U "message") (JObj []) ;;
    content <- dict_get msg (U "content") (JArr []) ;;
    blocks <- py_iter content ;;
    for_each blocks
      (fun block =>
         b_type <- dict_get block (U "type") JNull ;;
         if is_str b_type (U "tool_use") then
           name <- dict_get block (U "name") JNull ;;
           input <- dict_get block (U "input") JNull ;;
           logger INFO (MsgNestedToolUse name input)
         else ret tt) ;;
    ret (Continue events)
  else if is_str e_type (U "error") then
    err <- dict_get event (U "error") (JObj []) ;;
    err_get <- get_method err ;;
    fallback <- dict_get event (U "error") JNull ;;
    logger ERROR (MsgErrorEvent (err_get (U "message") fallback)) ;;
    ret (Continue events)
  else if is_str e_type (U "result") then
    sys_stdout_write newline ;;
    duration <- dict_get event (U "duration_ms") (JInt 0) ;;
    logger INFO (MsgDone duration) ;;
    ret (Return true events)
  else ret (Continue events).

(** [e_type = event.get("type")] and the chain on it. *)
Definition dispatch (event : json) (events : list json) : M ctl :=
  e_type <- dict_get event (U "type") JNull ;;
  classify event e_type events.

(** What a call of [wait_for_result] has come to when the schedule of its
    surroundings is used up: it has returned, it has raised, or it is still
    in its loop with [events] collected so far. *)
Inductive outcome : Type :=
| Returned (ok : bool) (events : list json)
| Raised (e : exn)
| Waiting (events : list json).

Section WaitForResult.

(** [json.loads]: the value of a line, or the exception raised on it:
    [JSONDecodeError] on a text that is no JSON, and [ValueError] or
    [RecursionError] on some texts, JSON or not. *)
Variable json_loads : pystr -> result json.

(** The body of [while True]. *)
Definition loop_body (timeout start_time : Q) (events : list json) : M ctl :=
  now <- time_time ;;
  if negb (Qle_bool (now - start_time) timeout) then
    logger ERROR MsgTimeout ;;
    _ <- check_status ;;
    ret (Return false events)
  else
    code <- Popen_poll ;;
    match code with
    | Some returncode =>
        logger ERROR (MsgExited returncode) ;;
        ret (Return false events)
    | None =>
        got <- stdout_queue_get ;;
        match got with
        | None => ret (Continue events)
        | Some line =>
            try_except
              (event <- call (json_loads line) ;;
               let events := events ++ [event] in
               modify (fun w => set_event_log (event_log w ++ [event]) w) ;;
               dispatch event events)
              JSONDecodeError
              ((if truthy (strip line)
                then logger WARNING (MsgNonJson line)
                else ret tt) ;;
               ret (Continue events))
        end
    end.

Fixpoint wait_loop (timeout start_time : Q) (sched : list tick)
         (events : list json) (w : world) : outcome * world :=
  match sched with
  | [] => (Waiting events, w)
  | tk :: sched' =>
      match loop_body timeout start_time events (happen tk w) with
      | (Ok (Continue events'), w') =>
          wait_loop timeout start_time sched' events' w'
      | (Ok (Return ok events'), w') => (Returned ok events', w')
      | (Exc e, w') => (Raised e, w')
      end
  end.

Definition wait_for_result (timeout : Q) (sched : list tick) (w : world)
  : outcome * world :=
  match (start_time <- time_time ;; logger INFO MsgWaiting ;; ret start_time) w with
  | (Ok start_time, w') => wait_loop timeout start_time sched [] w'
  | (Exc e, w') => (Raised e, w')
  end.

End WaitForResult.

(** ** A reader of JSON texts

    The theorems on the wait loop hold for whatever [json.loads] does.  To
    run the loop on concrete lines, and to read back what [json.dumps] has
    written, [decode] follows the scanner of [json.decoder] on the JSON
    texts made of objects, arrays, strings with all their escapes, integers,
    [true], [false] and [null].  On these it returns what [json.loads]
    returns, a repeated key keeping its first position and its last value,
    and it raises [ValueError] on an integer literal of more than 4300
    digits, as the conversion to [int] does.  Numbers with a fraction or an
    exponent, and nesting beyond the recursion limit of the interpreter,
    are outside what it reads. *)

Fixpoint skip_ws (s : pystr) : pystr :=
  match s with
  | c :: s' =>
      if ((c =? 32) || (c =? 9) || (c =? 10) || (c =? 13))%N
      then skip_ws s' else s
  | [] => []
  end.

Fixpoint dict_set (k : pystr) (v : json) (kvs : list (pystr * json))
  : list (pystr * json) :=
  match kvs with
  | [] => [(k, v)]
  | (k', v') :: rest =>
      if str_eqb k' k then (k', v) :: rest else (k', v') :: dict_set k v rest
  end.

(** The value of a hexadecimal digit. *)
Definition unhex (c : N) : option N :=
  (if (48 <=? c) && (c <=? 57) then Some (c - 48)
   else if (97 <=? c) && (c <=? 102) then Some (c - 87)
   else if (65 <=? c) && (c <=? 70) then Some (c - 55)
   else None)%N.

(** The four digits after a backslash and [u]. *)
Definition hex4 (a b c d : N) : option N :=
  match unhex a, unhex b, unhex c, unhex d with
  | Some x3, Some x2, Some x1, Some x0 =>
      Some (((x3 * 16 + x2) * 16 + x1) * 16 + x0)%N
  | _, _, _, _ => None
  end.

(** The character after a backslash, [u] apart. *)
Definition unescape (e : N) : option N :=
  (if e =? 34 then Some 34 else if e =? 92 then Some 92
   else if e =? 47 then Some 47 else if e =? 110 then Some 10
   else if e =? 114 then Some 13 else if e =? 116 then Some 9
   else if e =? 98 then Some 8 else if e =? 102 then Some 12
   else None)%N.

Definition is_high (c : N) : bool := ((55296 <=? c) && (c <=? 56319))%N.

Definition is_low (c : N) : bool := ((56320 <=? c) && (c <=? 57343))%N.

(** The code point that a high and a low surrogate stand for. *)
Definition join_surrogates (hi lo : N) : N :=
  (65536 + (hi - 55296) * 1024 + (lo - 56320))%N.

(** The characters of a string literal after its opening quote.  An escaped
    high surrogate takes an escaped low surrogate that follows it at once;
    a control character is no part of a string. *)
Fixpoint scan_string (s acc : pystr) : option (pystr * pystr) :=
  match s with
  | [] => None
  | c :: rest =>
      if (c =? 34)%N then Some (rev acc, rest)
      else if (c =? 92)%N then
        match rest with
        | [] => None
        | e :: rest1 =>
            if (e =? 117)%N then
              match rest1 with
              | h1 :: h2 :: h3 :: h4 :: rest2 =>
                  match hex4 h1 h2 h3 h4 with
                  | None => None
                  | Some uni =>
                      if is_high uni then
                        match rest2 with
                        | b :: u :: l1 :: l2 :: l3 :: l4 :: rest3 =>
                            if ((b =? 92) && (u =? 117))%N then
                              match hex4 l1 l2 l3 l4 with
                              | None => None
                              | Some uni2 =>
                                  if is_low uni2
                                  then scan_string rest3
                                         (join_surrogates uni uni2 :: acc)
                                  else scan_string rest2 (uni :: acc)
                              end
                            else scan_string rest2 (uni :: acc)
                        | _ => scan_string rest2 (uni :: acc)
                        end
                      else scan_string rest2 (uni :: acc)
                  end
              | _ => None
              end
            else
              match unescape e with
              | Some c' => scan_string rest1 (c' :: acc)
              | None => None
              end
        end
      else if (c <? 32)%N then None
      else scan_string rest (c :: acc)
  end.

Fixpoint scan_digits (s : pystr) (acc : Z) : Z * pystr :=
  match s with
  | c :: rest =>
      if ((48 <=? c) && (c <=? 57))%N
      then scan_digits rest (10 * acc + Z.of_N (c - 48))
      else (acc, s)
  | [] => (acc, [])
  end.

Definition is_digit (c : N) : bool := ((48 <=? c) && (c <=? 57))%N.

(** [sys.get_int_max_str_digits()] *)
Definition int_max_str_digits : nat := 4300.

(** An integer literal: no leading zero, no fraction, no exponent.  The
    conversion of its digits raises [ValueError] when they are too many. *)
Definition scan_int (s : pystr) : result (Z * pystr) :=
  let (neg, body) :=
    match s with
    | 45%N :: r => (true, r)
    | _ => (false, s)
    end in
  match body with
  | d :: d' :: _ =>
      if is_digit d && negb ((d =? 48)%N && is_digit d') then
        let (n, rest) := scan_digits body 0 in
        let int :=
          if Nat.ltb int_max_str_digits (List.length body - List.length rest)
          then Exc ValueError
          else Ok (if neg then - n else n, rest) in
        match rest with
        | c :: _ =>
            if ((c =? 46) || (c =? 101) || (c =? 69))%N
            then Exc JSONDecodeError
            else int
        | [] => int
        end
      else Exc JSONDecodeError
  | [d] =>
      if is_digit d
      then Ok (if neg then - (Z.of_N (d - 48)) else Z.of_N (d - 48), [])
      else Exc JSONDecodeError
  | [] => Exc JSONDecodeError
  end.

Fixpoint strip_prefix (p s : pystr) : option pystr :=
  match p, s with
  | [], _ => Some s
  | a :: p', b :: s' => if (a =? b)%N then strip_prefix p' s' else None
  | _ :: _, [] => None
  end.

(** A literal name after its first letter. *)
Definition scan_name (tail : string) (v : json) (s : pystr)
  : result (json * pystr) :=
  match strip_prefix (U tail) s with
  | Some r => Ok (v, r)
  | None => Exc JSONDecodeError
  end.

Fixpoint decode_value (fuel : nat) (s : pystr) : result (json * pystr) :=
  match fuel with
  | O => Exc JSONDecodeError
  | S fuel' =>
      match skip_ws s with
      | 123%N :: r =>
          match skip_ws r with
          | 125%N :: r' => Ok (JObj [], r')
          | _ => decode_members fuel' r []
          end
      | 91%N :: r =>
          match skip_ws r with
          | 93%N :: r' => Ok (JArr [], r')
          | _ => decode_items fuel' r []
          end
      | 34%N :: r =>
          match scan_string r [] with
          | Some (str, r') => Ok (JStr str, r')
          | None => Exc JSONDecodeError
          end
      | 116%N :: r => scan_name "rue" (JBool true) r
      | 102%N :: r => scan_name "alse" (JBool false) r
      | 110%N :: r => scan_name "ull" JNull r
      | s' =>
          match scan_int s' with
          | Ok (n, r') => Ok (JInt n, r')
          | Exc e => Exc e
          end
      end
  end
with decode_members (fuel : nat) (s : pystr) (acc : list (pystr * json))
  : result (json * pystr) :=
  match fuel with
  | O => Exc JSONDecodeError
  | S fuel' =>
      match skip_ws s with
      | 34%N :: r =>
          match scan_string r [] with
          | Some (key, r1) =>
              match skip_ws r1 with
              | 58%N :: r2 =>
                  match decode_value fuel' r2 with
                  | Ok (v, r3) =>
                      match skip_ws r3 with
                      | 44%N :: r4 => decode_members fuel' r4 (dict_set key v acc)
                      | 125%N :: r4 => Ok (JObj (dict_set key v acc), r4)
                      | _ => Exc JSONDecodeError
                      end
                  | Exc e => Exc e
                  end
              | _ => Exc JSONDecodeError
              end
          | None => Exc JSONDecodeError
          end
      | _ => Exc JSONDecodeError
      end
  end
with decode_items (fuel : nat) (s : pystr) (acc : list json)
  : result (json * pystr) :=
  match fuel with
  | O => Exc JSONDecodeError
  | S fuel' =>
      match decode_value fuel' s with
      | Ok (v, r) =>
          match skip_ws r with
          | 44%N :: r' => decode_items fuel' r' (acc ++ [v])
          | 93%N :: r' => Ok (JArr (acc ++ [v]), r')
          | _ => Exc JSONDecodeError
          end
      | Exc e => Exc e
      end
  end.

Definition decode (line : pystr) : result json :=
  match decode_value (S (List.length line)) line with
  | Ok (v, rest) =>
      match skip_ws rest with
      | [] => Ok v
      | _ :: _ => Exc JSONDecodeError
      end
  | Exc e => Exc e
  end.

(** ** The vocabulary of the properties

    Views of the model that the statements below are written in. *)

(** *** The queue and the events *)

(** What the reader thread has put on a queue [q] over the passes [ticks],
    had nothing been taken from it. *)
Definition arrived (ticks : list tick) (q : list pystr) : list pystr :=
  fold_left (fun q tk => fold_left reader_put (t_lines tk) q) ticks q.

(** The events of the lines that parse, in the order of the lines. *)
Definition decoded (json_loads : pystr -> result json) (lines : list pystr)
  : list json :=
  flat_map (fun line =>
              match json_loads line with
              | Ok event => [event]
              | Exc _ => []
              end) lines.

(** The value [event.get("type")] of a [dict]. *)
Definition type_of (fields : list (pystr * json)) : json :=
  match assoc (U "type") fields with
  | Some v => v
  | None => JNull
  end.

(** A [dict] whose ["type"] is ["result"]. *)
Definition is_result (event : json) : bool :=
  match event with
  | JObj fields =>
      match assoc (U "type") fields with
      | Some v => is_str v (U "result")
      | None => false
      end
  | _ => false
  end.

(** A line that parses to a [dict] with ["type": "result"]. *)
Definition result_line (json_loads : pystr -> result json) (line : pystr) : Prop :=
  exists fields,
    json_loads line = Ok (JObj fields) /\
    assoc (U "type") fields = Some (JStr (U "result")).

(** The tags the [if]/[elif] chain knows. *)
Definition recognized : list pystr :=
  map U ["thinking"; "status"; "tool_use"; "assistant"; "user"; "error";
         "result"]%string.

(** The ["type"] of a [dict] is missing or is none of the known tags. *)
Definition unrecognized (fields : list (pystr * json)) : Prop :=
  match assoc (U "type") fields with
  | None => True
  | Some v => forall tag, In tag recognized -> v <> JStr tag
  end.

(** What the [error] branch logs for a [dict] event: the message of a
    [dict]-valued ["error"], that [dict] itself when it has no message,
    [None] when the event has no ["error"]; nothing when the ["error"] is not
    a [dict]. *)
Definition err_msg_of (fields : list (pystr * json)) : option json :=
  match assoc (U "error") fields with
  | None => Some JNull
  | Some (JObj err) =>
      Some (match assoc (U "message") err with
            | Some m => m
            | None => JObj err
            end)
  | Some _ => None
  end.

(** *** The passes of the wait loop *)

(** The deadline check of the pass [tk] passes, for a call entered at
    [start_time]. *)
Definition within (timeout start_time : Q) (tk : tick) : Prop :=
  (t_clock tk - start_time <= timeout)%Q.

(** The same check, as the loop body computes it on the world. *)
Definition in_time (timeout start_time : Q) (w : world) : bool :=
  Qle_bool (clock w - start_time) timeout.

(** What [check_status] logs. *)
Definition status_record (p : popen) : output :=
  match exit_status p with
  | None => Log INFO MsgAlive
  | Some c => Log ERROR (MsgDead c)
  end.

(** What the handler of [json.JSONDecodeError] does to the world. *)
Definition warn_non_json (line : pystr) (w : world) : world :=
  if truthy (strip line)
  then set_emitted (emitted w ++ [Log WARNING (MsgNonJson line)]) w
  else w.

(** The eight ways a pass can go. *)
Variant pass_view (json_loads : pystr -> result json) (timeout start_time : Q)
        (w : world) : Prop :=
| PassTimeout (p : popen) :
    in_time timeout start_time w = false -> process w = Some p ->
    pass_view json_loads timeout start_time w
| PassTimeoutUnstarted :
    in_time timeout start_time w = false -> process w = None ->
    pass_view json_loads timeout start_time w
| PassUnstarted :
    in_time timeout start_time w = true -> process w = None ->
    pass_view json_loads timeout start_time w
| PassExited (p : popen) (code : Z) :
    in_time timeout start_time w = true -> process w = Some p ->
    exit_status p = Some code ->
    pass_view json_loads timeout start_time w
| PassEmpty (p : popen) :
    in_time timeout start_time w = true -> process w = Some p ->
    exit_status p = None -> stdout_queue w = [] ->
    pass_view json_loads timeout start_time w
| PassNonJson (p : popen) (line : pystr) (rest : list pystr) :
    in_time timeout start_time w = true -> process w = Some p ->
    exit_status p = None -> stdout_queue w = line :: rest ->
    json_loads line = Exc JSONDecodeError ->
    pass_view json_loads timeout start_time w
| PassLoadsRaises (p : popen) (line : pystr) (rest : list pystr) (e : exn) :
    in_time timeout start_time w = true -> process w = Some p ->
    exit_status p = None -> stdout_queue w = line :: rest ->
    json_loads line = Exc e -> e <> JSONDecodeError ->
    pass_view json_loads timeout start_time w
| PassEvent (p : popen) (line : pystr) (rest : list pystr) (event : json) :
    in_time timeout start_time w = true -> process w = Some p ->
    exit_status p = None -> stdout_queue w = line :: rest ->
    json_loads line = Ok event ->
    pass_view json_loads timeout start_time w.

(** A computation that touches nothing but the log and the console. *)
Definition emits_only {A} (c : M A) : Prop :=
  forall w, exists out, snd (c w) = set_emitted (emitted w ++ out) w.

(** A computation that raises nothing but [AttributeError] and
    [TypeError]. *)
Definition raises_lookup {A} (c : M A) : Prop :=
  forall w e, fst (c w) = Exc e -> e = AttributeError \/ e = TypeError.

(** A computation that ends a pass without leaving the loop, or raises. *)
Definition stays (events : list json) (c : M ctl) : Prop :=
  forall w,
    match fst (c w) with
    | Ok (Continue evs) => evs = events
    | Ok (Return _ _) => False
    | Exc _ => True
    end.

(** *** The senders *)

(** The handle after [line] has been written and flushed. *)
Definition fed (line : pystr) (p : popen) : popen :=
  set_stdin (mkPipe false []
               (delivered (stdin p) ++ pending (stdin p) ++ line)) p.

(** The ways [send_raw payload_str] can go. *)
Variant send_view (payload_str : pystr) (w : world) : Prop :=
| SendUnstarted : process w = None -> send_view payload_str w
| SendExited (p : popen) (code : Z) :
    process w = Some p -> exit_status p = Some code -> send_view payload_str w
| SendUnencodable (p : popen) :
    process w = Some p -> exit_status p = None ->
    encodable payload_str = false -> send_view payload_str w
| SendBroken (p : popen) :
    process w = Some p -> exit_status p = None ->
    encodable payload_str = true -> broken (stdin p) = true ->
    send_view payload_str w
| SendOk (p : popen) :
    process w = Some p -> exit_status p = None ->
    encodable payload_str = true -> broken (stdin p) = false ->
    send_view payload_str w.


(** There is no running child behind the wrapper, or its pipe is broken. *)
Definition unreachable (w : world) : Prop :=
  match process w with
  | None => True
  | Some p => exit_status p <> None \/ broken (stdin p) = true
  end.



(** A Unicode scalar value: a code point that is no surrogate.  The text a
    [str] holds unless surrogates were put there on their own. *)
Definition scalar (c : N) : Prop :=
  (c < 1114112)%N /\ is_surrogate c = false.

(** An ASCII literal between double quotes. *)
Definition quoted (s : string) : pystr := [34%N] ++ U s ++ [34%N].


(** *** [stop] *)

(** The handle after one more terminate signal. *)
Definition signalled (p : popen) : popen :=
  mkPopen (exit_status p) (stdin p) (S (sigterm p)) (on_sigterm p).

(** The ways [stop] can go. *)
Variant stop_view (w : world) : Prop :=
| StopUnstarted : process w = None -> stop_view w
| StopExited (p : popen) (code : Z) :
    process w = Some p -> exit_status p = Some code -> stop_view w
| StopKilled (p : popen) (d : Q) (code : Z) :
    process w = Some p -> exit_status p = None ->
    on_sigterm p = Some (d, code) -> Qle_bool d 5 = true -> stop_view w
| StopTimeout (p : popen) :
    process w = Some p -> exit_status p = None ->
    match on_sigterm p with
    | Some (d, _) => Qle_bool d 5 = false
    | None => True
    end -> stop_view w.

(** ** Sample data *)

(** [{"type": "<tag>"}] *)
Definition line_of_type (tag : string) : pystr :=
  U "{" ++ quoted "type" ++ U ": " ++ quoted tag ++ U "}".

(** [{"type": "error", "error": "boom"}] *)
Definition line_error_str : pystr :=
  U "{" ++ quoted "type" ++ U ": " ++ quoted "error" ++ U ", " ++
  quoted "error" ++ U ": " ++ quoted "boom" ++ U "}".

(** [{"type": "error", "error": {"message": "boom"}}] *)
Definition line_error_obj : pystr :=
  U "{" ++ quoted "type" ++ U ": " ++ quoted "error" ++ U ", " ++
  quoted "error" ++ U ": {" ++ quoted "message" ++ U ": " ++ quoted "boom" ++
  U "}}".

Definition status_event : json := JObj [(U "type", JStr (U "status"))].
Definition result_event : json := JObj [(U "type", JStr (U "result"))].

(** A child that has just been spawned, and that exits a tenth of a second
    after a terminate signal. *)
Definition fresh_child : popen :=
  mkPopen None (mkPipe false [] []) 0 (Some ((1 # 10)%Q, -15)).

(** A wrapper that has been started on [fresh_child]. *)
Definition live_world : world :=
  snd (start (U "default") fresh_child (init (Some (U "s1")) (U "u4") 0%Q)).

(** A running child that has closed its standard input, and a wrapper
    started on it. *)
Definition deaf_child : popen :=
  mkPopen None (mkPipe true [] []) 0 (Some ((1 # 10)%Q, -15)).

Definition deaf_world : world :=
  snd (start (U "default") deaf_child (init (Some (U "s1")) (U "u4") 0%Q)).

(** A text of one high surrogate on its own. *)
Definition lone_surrogate : pystr := [55296%N].

(** A quote, a backslash, a newline, a letter with an accent, a character
    above the basic plane and DEL. *)
Definition awkward_text : pystr := [34; 92; 10; 233; 128512; 127]%N.

(** An integer literal of 4301 digits. *)
Definition long_int_line : pystr := repeat 49%N 4301.

(** A line as the child prints it. *)
Definition raw (line : pystr) : pystr := line ++ newline.

(** The child prints a status event, a result and one more event in one go. *)
Definition sample_ticks : list tick :=
  [mkTick 1 [raw (line_of_type "status"); raw (line_of_type "result");
             raw (line_of_type "later")] None;
   mkTick 2 [] None;
   mkTick 3 [] None].

(** The child exits with status [code] before printing anything. *)
Definition exit_tick (code : Z) : tick := mkTick 1 [] (Some code).

(** The child prints one line. *)
Definition line_tick (line : pystr) : tick := mkTick 1 [raw line] None.

(** ** The diagnostic stream

    [_stderr_logger] runs in a thread of its own while the flag [running]
    is set.  Its surroundings are given pass by pass, as for the wait loop:
    the lines the reader thread of the diagnostic stream has read, and
    whether [stop] has cleared the flag in the meantime. *)

Definition set_stderr_queue (q : list pystr) (w : world) : world :=
  mkWorld (session_id w) (process w) (stdout_queue w) q (running w)
          (event_log w) (clock w) (emitted w).

Record dtick : Type := mkDtick {
  d_lines : list pystr;     (* lines read from the child's stderr since the
                               pass before, up to the end of the timed [get] *)
  d_stop : bool             (* [stop] has cleared [running] *)
}.

Definition dhappen (tk : dtick) (w : world) : world :=
  set_running (if d_stop tk then false else running w)
    (set_stderr_queue (fold_left reader_put (d_lines tk) (stderr_queue w)) w).

(** Where the thread is when the schedule is used up. *)
Inductive thread : Type := Ended | Alive.

(** [_stderr_logger]: the state of the thread, the lines it has logged as
    warnings (oldest first, after [logged]), and the world it leaves. *)
Fixpoint stderr_logger (sched : list dtick) (logged : list pystr) (w : world)
  : thread * list pystr * world :=
  match sched with
  | [] => (Alive, logged, w)
  | tk :: sched' =>
      let w1 := dhappen tk w in
      if running w1 then
        match stderr_queue w1 with
        | line :: rest =>
            stderr_logger sched' (logged ++ [line]) (set_stderr_queue rest w1)
        | [] => stderr_logger sched' logged w1
        end
      else (Ended, logged, w1)
  end.

(** ** The harness: reading the answer out of the events

    The end of [run_comprehensive_suite]: the text blocks of the assistant
    events of [rep] are glued together, and the answer passes when its
    lower-cased text holds the name of the script. *)





Fixpoint starts_with (prefix s : pystr) : bool :=
  match prefix, s with
  | [], _ => true
  | a :: prefix', b :: s' => (a =? b)%N && starts_with prefix' s'
  | _ :: _, [] => false
  end.

(** [needle in hay] *)
Fixpoint contains (needle hay : pystr) : bool :=
  starts_with needle hay ||
  match hay with
  | [] => false
  | _ :: hay' => contains needle hay'
  end.

(** ["hello.py" in response_text.lower() or "hello" in response_text.lower()];
    [lower] is [str.lower]. *)
Definition recalls (lower : pystr -> pystr) (text : pystr) : bool :=
  contains (U "hello.py") (lower text) || contains (U "hello") (lower text).

(** ** More vocabulary *)

(** What the reader thread of the diagnostic stream has put on its queue
    [q] over the passes [ticks], had nothing been taken from it. *)
Definition arrived_d (ticks : list dtick) (q : list pystr) : list pystr :=
  fold_left (fun q tk => fold_left reader_put (d_lines tk) q) ticks q.

(** What a wrapper and its child are apart from the queue of the primary
    stream, the event log and the exit status of the child: the things
    [wait_for_result] has no business with. *)
Definition bystanders (w : world)
  : pystr * list pystr * bool * option (pipe * nat * option (Q * Z)) :=
  (session_id w, stderr_queue w, running w,
   option_map (fun p => (stdin p, sigterm p, on_sigterm p)) (process w)).

(** A JSON value that is a [dict]. *)
Definition is_dict (v : json) : bool :=
  match v with
  | JObj _ => true
  | _ => false
  end.

(** The log records of the tool calls among the blocks of a message. *)
Definition nested_records (blocks : list json) : list output :=
  flat_map (fun block =>
              match block with
              | JObj fields =>
                  if is_str (type_of fields) (U "tool_use") then
                    [Log INFO
                       (MsgNestedToolUse
                          (match assoc (U "name") fields with
                           | Some v => v | None => JNull end)
                          (match assoc (U "input") fields with
                           | Some v => v | None => JNull end))]
                  else []
              | _ => []
              end) blocks.

(** The blocks of a message event whose ["message"] is missing or a [dict]
    and whose ["content"] is missing or a list. *)
Definition blocks_of (fields : list (pystr * json)) : option (list json) :=
  match assoc (U "message") fields with
  | None => Some []
  | Some (JObj msg) =>
      match assoc (U "content") msg with
      | None => Some []
      | Some (JArr blocks) => Some blocks
      | Some _ => None
      end
  | Some _ => None
  end.




(** * Facts *)

(** ** The model at work *)

Example dumps_values :
  json_dumps (JArr [JInt (-12); JNull; JObj []; JArr []; JBool true]) =
  U "[-12, null, {}, [], true]".
Proof. reflexivity. Qed.

(** A newline, a Latin letter with an accent, a character above the basic
    plane, a quote and DEL. *)
Example dumps_escapes :
  json_dumps (JStr [10; 233; 128512; 34; 127]%N) =
  [34%N] ++ U "\n\u00e9\ud83d\ude00" ++ [92; 34]%N ++
  U "\u007f" ++ [34%N].
Proof. reflexivity. Qed.

Example strip_line : strip (U "  a b " ++ [9; 13; 10]%N) = U "a b".
Proof. reflexivity. Qed.

Example reader_blank_line : reader_put [] (raw []) = [[]].
Proof. reflexivity. Qed.

Example decode_request :
  decode (json_dumps (payload (U "hi"))) = Ok (payload (U "hi")).
Proof. reflexivity. Qed.

Example decode_escapes :
  decode (json_dumps (JStr awkward_text)) = Ok (JStr awkward_text) /\
  decode ([34%N] ++ U "\u00E9\/" ++ [34%N]) = Ok (JStr [233; 47]%N).
Proof. split; reflexivity. Qed.

(** A high surrogate on its own, and one followed by a low surrogate that
    was a character of its own. *)
Example decode_surrogates :
  decode (json_dumps (JStr lone_surrogate)) = Ok (JStr lone_surrogate) /\
  decode (json_dumps (JStr [55357; 56832]%N)) = Ok (JStr [128512%N]).
Proof. split; reflexivity. Qed.

Example decode_last_value_wins :
  decode (U "{" ++ quoted "a" ++ U ": 1, " ++ quoted "b" ++ U ": 2, " ++
          quoted "a" ++ U ": 3}") =
  Ok (JObj [(U "a", JInt 3); (U "b", JInt 2)]).
Proof. reflexivity. Qed.

Example decode_rejects :
  decode [] = Exc JSONDecodeError /\
  decode (U "not json") = Exc JSONDecodeError /\
  decode (U "[1,]") = Exc JSONDecodeError /\
  decode ([34%N] ++ U "\u12" ++ [34%N]) = Exc JSONDecodeError.
Proof. repeat split. Qed.

(** The limit on the digits of an integer: 4300 digits are read, one more
    raises, whether the text is JSON or not. *)
Example decode_long_int :
  match decode (repeat 49%N 4300) with Ok (JInt _) => true | _ => false end
    = true /\
  decode long_int_line = Exc ValueError /\
  decode (long_int_line ++ U "x") = Exc ValueError /\
  decode (U "[" ++ long_int_line ++ U "]") = Exc ValueError.
Proof. repeat split; vm_compute; reflexivity. Qed.

(** ** Basic facts *)

Lemma str_eqb_eq (a b : pystr) : str_eqb a b = true <-> a = b.
Proof.
  revert b; induction a as [|x a IH]; intros [|y b]; simpl;
    try (split; [discriminate | discriminate]); try tauto.
  rewrite andb_true_iff, N.eqb_eq, IH.
  split; [intros [-> ->]; reflexivity | intros E; inversion E; auto].
Qed.

Lemma is_str_eq (v : json) (s : pystr) : is_str v s = true <-> v = JStr s.
Proof.
  destruct v; simpl; try (split; [discriminate | discriminate]).
  rewrite str_eqb_eq. split; [intros ->; reflexivity | intros E; inversion E; auto].
Qed.

Lemma reader_put_app (a q : list pystr) (line : pystr) :
  reader_put (a ++ q) line = a ++ reader_put q line.
Proof.
  unfold reader_put. destruct (truthy line); [symmetry; apply app_assoc | reflexivity].
Qed.

Lemma reader_puts_app (lines : list pystr) (a q : list pystr) :
  fold_left reader_put lines (a ++ q) = a ++ fold_left reader_put lines q.
Proof.
  revert q; induction lines as [|l lines IH]; intros q; simpl; [reflexivity|].
  rewrite reader_put_app. apply IH.
Qed.

Lemma arrived_app (ticks : list tick) (a q : list pystr) :
  arrived ticks (a ++ q) = a ++ arrived ticks q.
Proof.
  revert q; induction ticks as [|tk ticks IH]; intros q; simpl; [reflexivity|].
  unfold arrived in *; simpl. rewrite reader_puts_app. apply IH.
Qed.

Lemma arrived_cons (tk : tick) (ticks : list tick) (q : list pystr) :
  arrived (tk :: ticks) q = arrived ticks (fold_left reader_put (t_lines tk) q).
Proof. reflexivity. Qed.

Lemma stdout_queue_happen (tk : tick) (w : world) :
  stdout_queue (happen tk w) = fold_left reader_put (t_lines tk) (stdout_queue w).
Proof. reflexivity. Qed.

Lemma event_log_happen (tk : tick) (w : world) :
  event_log (happen tk w) = event_log w.
Proof. reflexivity. Qed.

Lemma clock_happen (tk : tick) (w : world) : clock (happen tk w) = t_clock tk.
Proof. reflexivity. Qed.

(** ** Computations that only log or print *)

Lemma emits_only_ret {A} (a : A) : emits_only (ret a).
Proof. intros w; exists []. destruct w; simpl. rewrite app_nil_r. reflexivity. Qed.

Lemma emits_only_raise {A} (e : exn) : emits_only (@raise A e).
Proof. intros w; exists []. destruct w; simpl. rewrite app_nil_r. reflexivity. Qed.

Lemma emits_only_bind {A B} (c : M A) (k : A -> M B) :
  emits_only c -> (forall a, emits_only (k a)) -> emits_only (bind c k).
Proof.
  intros Hc Hk w. unfold bind. destruct (Hc w) as [o1 E1].
  destruct (c w) as [[a|e] w1]; simpl in E1; subst w1.
  - destruct (Hk a (set_emitted (emitted w ++ o1) w)) as [o2 E2].
    exists (o1 ++ o2). rewrite E2. simpl. rewrite app_assoc. reflexivity.
  - exists o1. reflexivity.
Qed.

Lemma emits_only_logger (lvl : level) (msg : message) : emits_only (logger lvl msg).
Proof. intros w; exists [Log lvl msg]. reflexivity. Qed.

Lemma emits_only_stdout (text : pystr) : emits_only (sys_stdout_write text).
Proof. intros w; exists [Stdout text]. reflexivity. Qed.

Lemma emits_only_get_method (d : json) : emits_only (get_method d).
Proof. destruct d; simpl; first [apply emits_only_ret | apply emits_only_raise]. Qed.

Lemma emits_only_dict_get (d : json) (key : pystr) (default : json) :
  emits_only (dict_get d key default).
Proof.
  apply emits_only_bind; [apply emits_only_get_method | intros; apply emits_only_ret].
Qed.

Lemma emits_only_py_iter (v : json) : emits_only (py_iter v).
Proof. destruct v; simpl; first [apply emits_only_ret | apply emits_only_raise]. Qed.

Lemma emits_only_for_each {A} (xs : list A) (body : A -> M unit) :
  (forall x, emits_only (body x)) -> emits_only (for_each xs body).
Proof.
  intros Hb; induction xs as [|x xs IH]; simpl.
  - apply emits_only_ret.
  - apply emits_only_bind; [apply Hb | intros _; exact IH].
Qed.

Lemma emits_only_if {A} (b : bool) (c1 c2 : M A) :
  emits_only c1 -> emits_only c2 -> emits_only (if b then c1 else c2).
Proof. destruct b; auto. Qed.

Create HintDb emits.
#[local] Hint Resolve emits_only_ret emits_only_raise emits_only_logger
  emits_only_stdout emits_only_get_method emits_only_dict_get
  emits_only_py_iter : emits.

Ltac emits :=
  repeat first
    [ apply emits_only_bind; [|intros ?]
    | apply emits_only_if
    | apply emits_only_for_each; intros ?
    | solve [auto with emits] ].

Lemma emits_only_dispatch (event : json) (events : list json) :
  emits_only (dispatch event events).
Proof. unfold dispatch, classify. emits. Qed.

(** ** What the dispatch can raise *)

Lemma raises_lookup_ret {A} (a : A) : raises_lookup (ret a).
Proof. intros w e H. discriminate H. Qed.

Lemma raises_lookup_bind {A B} (c : M A) (k : A -> M B) :
  raises_lookup c -> (forall a, raises_lookup (k a)) -> raises_lookup (bind c k).
Proof.
  intros Hc Hk w e. unfold bind. specialize (Hc w).
  destruct (c w) as [[a|e'] w1]; simpl in *.
  - apply Hk.
  - intros H. inversion H; subst. apply Hc. reflexivity.
Qed.

Lemma raises_lookup_modify (f : world -> world) : raises_lookup (modify f).
Proof. intros w e H. discriminate H. Qed.

Lemma raises_lookup_get_method (d : json) : raises_lookup (get_method d).
Proof.
  intros w e. destruct d; simpl; intros H; inversion H; auto.
Qed.

Lemma raises_lookup_dict_get (d : json) (key : pystr) (default : json) :
  raises_lookup (dict_get d key default).
Proof.
  apply raises_lookup_bind;
    [apply raises_lookup_get_method | intros; apply raises_lookup_ret].
Qed.

Lemma raises_lookup_py_iter (v : json) : raises_lookup (py_iter v).
Proof.
  intros w e. destruct v; simpl; intros H; inversion H; auto.
Qed.

Lemma raises_lookup_for_each {A} (xs : list A) (body : A -> M unit) :
  (forall x, raises_lookup (body x)) -> raises_lookup (for_each xs body).
Proof.
  intros Hb; induction xs as [|x xs IH]; simpl.
  - apply raises_lookup_ret.
  - apply raises_lookup_bind; [apply Hb | intros _; exact IH].
Qed.

Lemma raises_lookup_if {A} (b : bool) (c1 c2 : M A) :
  raises_lookup c1 -> raises_lookup c2 -> raises_lookup (if b then c1 else c2).
Proof. destruct b; auto. Qed.

Create HintDb lookups.
#[local] Hint Resolve raises_lookup_ret raises_lookup_modify
  raises_lookup_get_method raises_lookup_dict_get raises_lookup_py_iter
  : lookups.

Ltac lookups :=
  repeat first
    [ apply raises_lookup_bind; [|intros ?]
    | apply raises_lookup_if
    | apply raises_lookup_for_each; intros ?
    | solve [auto with lookups] ].

(** The dispatch raises nothing that the handler of the wait loop takes. *)
Lemma raises_lookup_dispatch (event : json) (events : list json) :
  raises_lookup (dispatch event events).
Proof.
  unfold dispatch, classify, logger, sys_stdout_write. lookups.
Qed.

Lemma try_decode_dispatch (event : json) (events : list json) (h : M ctl)
      (w : world) :
  try_except (dispatch event events) JSONDecodeError h w =
  dispatch event events w.
Proof.
  unfold try_except.
  pose proof (raises_lookup_dispatch event events w) as R.
  destruct (dispatch event events w) as [[c|e] w1]; [reflexivity|].
  destruct (R e eq_refl) as [-> | ->]; reflexivity.
Qed.

(** ** The dispatch *)

Lemma stays_ret (events : list json) : stays events (ret (Continue events)).
Proof. intros w; reflexivity. Qed.

Lemma stays_bind {A} (events : list json) (c : M A) (k : A -> M ctl) :
  (forall a, stays events (k a)) -> stays events (bind c k).
Proof.
  intros Hk w. unfold bind. destruct (c w) as [[a|e] w1]; [apply Hk | exact I].
Qed.

Lemma dispatch_dict (fields : list (pystr * json)) (events : list json) :
  dispatch (JObj fields) events =
  classify (JObj fields) (type_of fields) events.
Proof. reflexivity. Qed.

Lemma is_result_dict (fields : list (pystr * json)) :
  is_result (JObj fields) = is_str (type_of fields) (U "result").
Proof. unfold is_result, type_of. destruct (assoc (U "type") fields); reflexivity. Qed.

Lemma dispatch_outcome (event : json) (events : list json) (w : world) :
  match fst (dispatch event events w) with
  | Ok (Return ok evs) => ok = true /\ evs = events /\ is_result event = true
  | Ok (Continue evs) => evs = events /\ is_result event = false
  | Exc _ => is_result event = false
  end.
Proof.
  destruct event as [| | | | | |fields]; try reflexivity.
  rewrite dispatch_dict, is_result_dict.
  destruct (is_str (type_of fields) (U "result")) eqn:R.
  - apply is_str_eq in R. rewrite R. simpl. auto.
  - assert (S : stays events (classify (JObj fields) (type_of fields) events)).
    { unfold classify. rewrite R.
      repeat match goal with
             | |- stays _ (if ?b then _ else _) => destruct b
             | |- stays _ (bind _ _) => apply stays_bind; intros ?
             | |- stays _ (ret _) => apply stays_ret
             end. }
    specialize (S w).
    destruct (fst (classify (JObj fields) (type_of fields) events w))
      as [[evs|ok evs]|e]; intuition.
Qed.

(** ** One pass of the wait loop, case by case *)

Ltac run_m :=
  cbv beta iota delta
    [bind ret raise read modify logger sys_stdout_write time_time self_process
     Popen_poll check_status stdout_queue_get update_process].

Section Passes.

Variable json_loads : pystr -> result json.
Variables (timeout start_time : Q).

Local Abbreviation timely := (in_time timeout start_time).

Lemma body_timeout (events : list json) (w : world) (p : popen) :
  timely w = false -> process w = Some p ->
  loop_body json_loads timeout start_time events w =
  (Ok (Return false events),
   set_emitted ((emitted w ++ [Log ERROR MsgTimeout]) ++ [status_record p]) w).
Proof.
  unfold in_time, loop_body, status_record, warn_non_json; run_m.
  intros T P. simpl. rewrite T. simpl. rewrite P.
  destruct (exit_status p); reflexivity.
Qed.

Lemma body_timeout_unstarted (events : list json) (w : world) :
  timely w = false -> process w = None ->
  loop_body json_loads timeout start_time events w =
  (Exc AttributeError, set_emitted (emitted w ++ [Log ERROR MsgTimeout]) w).
Proof.
  unfold in_time, loop_body, status_record, warn_non_json; run_m.
  intros T P. simpl. rewrite T. simpl. rewrite P. reflexivity.
Qed.

Lemma body_unstarted (events : list json) (w : world) :
  timely w = true -> process w = None ->
  loop_body json_loads timeout start_time events w = (Exc AttributeError, w).
Proof.
  unfold in_time, loop_body, status_record, warn_non_json; run_m.
  intros T P. simpl. rewrite T. simpl. rewrite P. reflexivity.
Qed.

Lemma body_exited (events : list json) (w : world) (p : popen) (code : Z) :
  timely w = true -> process w = Some p -> exit_status p = Some code ->
  loop_body json_loads timeout start_time events w =
  (Ok (Return false events),
   set_emitted (emitted w ++ [Log ERROR (MsgExited code)]) w).
Proof.
  unfold in_time, loop_body, status_record, warn_non_json; run_m.
  intros T P E. simpl. rewrite T. simpl. rewrite P. simpl. rewrite E.
  reflexivity.
Qed.

Lemma body_empty (events : list json) (w : world) (p : popen) :
  timely w = true -> process w = Some p -> exit_status p = None ->
  stdout_queue w = [] ->
  loop_body json_loads timeout start_time events w = (Ok (Continue events), w).
Proof.
  unfold in_time, loop_body, status_record, warn_non_json; run_m.
  intros T P E Q. simpl. rewrite T. simpl. rewrite P. simpl. rewrite E, Q.
  reflexivity.
Qed.

Lemma body_non_json (events : list json) (w : world) (p : popen)
      (line : pystr) (rest : list pystr) :
  timely w = true -> process w = Some p -> exit_status p = None ->
  stdout_queue w = line :: rest -> json_loads line = Exc JSONDecodeError ->
  loop_body json_loads timeout start_time events w =
  (Ok (Continue events), warn_non_json line (set_stdout_queue rest w)).
Proof.
  unfold in_time, loop_body, status_record, warn_non_json; run_m.
  intros T P E Q L. simpl. rewrite T. simpl. rewrite P. simpl.
  rewrite E, Q, L. destruct (truthy (strip line)); reflexivity.
Qed.

Lemma body_event (events : list json) (w : world) (p : popen)
      (line : pystr) (rest : list pystr) (event : json) :
  timely w = true -> process w = Some p -> exit_status p = None ->
  stdout_queue w = line :: rest -> json_loads line = Ok event ->
  loop_body json_loads timeout start_time events w =
  dispatch event (events ++ [event])
    (set_event_log (event_log w ++ [event]) (set_stdout_queue rest w)).
Proof.
  unfold in_time, loop_body, status_record, warn_non_json; run_m.
  intros T P E Q L. simpl. rewrite T. simpl. rewrite P. simpl.
  rewrite E, Q. unfold call. rewrite L.
  apply (try_decode_dispatch event (events ++ [event])).
Qed.

Lemma body_loads_raises (events : list json) (w : world) (p : popen)
      (line : pystr) (rest : list pystr) (e : exn) :
  timely w = true -> process w = Some p -> exit_status p = None ->
  stdout_queue w = line :: rest ->
  json_loads line = Exc e -> e <> JSONDecodeError ->
  loop_body json_loads timeout start_time events w =
  (Exc e, set_stdout_queue rest w).
Proof.
  unfold in_time, loop_body, status_record, warn_non_json; run_m.
  intros T P E Q L NE. simpl. rewrite T. simpl. rewrite P. simpl.
  rewrite E, Q. unfold try_except, call. rewrite L.
  destruct e; try reflexivity. destruct NE; reflexivity.
Qed.

Lemma pass_cases (w : world) : pass_view json_loads timeout start_time w.
Proof.
  destruct (timely w) eqn:T, (process w) as [p|] eqn:P;
    try solve [econstructor; eassumption].
  destruct (exit_status p) as [code|] eqn:E;
    [eapply PassExited; eassumption|].
  destruct (stdout_queue w) as [|line rest] eqn:Q;
    [eapply PassEmpty; eassumption|].
  destruct (json_loads line) as [event|e] eqn:L;
    [eapply PassEvent; eassumption|].
  destruct (exn_eqb JSONDecodeError e) eqn:D.
  - destruct e; try discriminate D. eapply PassNonJson; eassumption.
  - eapply PassLoadsRaises; try eassumption. intros ->. discriminate D.
Qed.

End Passes.

(** ** The wait loop over a schedule *)

Section Loop.

Variable json_loads : pystr -> result json.
Variables (timeout start_time : Q).

Local Abbreviation body := (loop_body json_loads timeout start_time).
Local Abbreviation loop := (wait_loop json_loads timeout start_time).
Local Abbreviation timely := (in_time timeout start_time).

Local Abbreviation decoded := (decoded json_loads).

Lemma decoded_app (a b : list pystr) : decoded (a ++ b) = decoded a ++ decoded b.
Proof. apply flat_map_app. Qed.

Lemma loop_app (pre post : list tick) :
  forall events w,
    loop (pre ++ post) events w =
    match loop pre events w with
    | (Waiting events', w') => loop post events' w'
    | r => r
    end.
Proof.
  induction pre as [|tk pre IH]; intros events w; simpl; [reflexivity|].
  destruct (body events (happen tk w)) as [[[evs|ok evs]|e] w']; auto.
Qed.

(** A pass that raises or goes on did not see a result; a pass that
    returns success saw one. *)
Lemma dispatch_result (event : json) (events : list json) (w : world) :
  is_result event = true ->
  exists out,
    dispatch event events w =
    (Ok (Return true events), set_emitted (emitted w ++ out) w).
Proof.
  intros R. destruct (emits_only_dispatch event events w) as [out E].
  exists out. pose proof (dispatch_outcome event events w) as O.
  destruct (dispatch event events w) as [r w']; simpl in *. subst w'.
  destruct r as [[evs|ok evs]|e].
  - destruct O; congruence.
  - destruct O as (-> & -> & _). reflexivity.
  - congruence.
Qed.

(** What one pass takes from the queue, and what it adds to the log and
    to [events]. *)
Lemma body_trace (events : list json) (w : world) :
  exists taken,
    stdout_queue w = taken ++ stdout_queue (snd (body events w)) /\
    event_log (snd (body events w)) = event_log w ++ decoded taken /\
    match fst (body events w) with
    | Ok (Continue evs) | Ok (Return _ evs) => evs = events ++ decoded taken
    | Exc _ => True
    end.
Proof.
  destruct (pass_cases json_loads timeout start_time w)
    as [p T P|T P|T P|p code T P E|p T P E Q|p line rest T P E Q L
        |p line rest e T P E Q L NE|p line rest event T P E Q L].
  - rewrite (body_timeout _ _ _ _ _ p T P). exists []; simpl.
    rewrite !app_nil_r; auto.
  - rewrite (body_timeout_unstarted _ _ _ _ _ T P). exists []; simpl.
    rewrite !app_nil_r; auto.
  - rewrite (body_unstarted _ _ _ _ _ T P). exists []; simpl.
    rewrite !app_nil_r; auto.
  - rewrite (body_exited _ _ _ _ _ p code T P E). exists []; simpl.
    rewrite !app_nil_r; auto.
  - rewrite (body_empty _ _ _ _ _ p T P E Q). exists []; simpl.
    rewrite !app_nil_r; auto.
  - rewrite (body_non_json _ _ _ _ _ p line rest T P E Q L).
    exists [line]; unfold warn_non_json, decoded; simpl. rewrite L, Q.
    destruct (truthy (strip line)); simpl; rewrite !app_nil_r; auto.
  - rewrite (body_loads_raises _ _ _ _ _ p line rest e T P E Q L NE).
    exists [line]; unfold decoded; simpl. rewrite L, Q. simpl.
    rewrite !app_nil_r; auto.
  - rewrite (body_event _ _ _ _ _ p line rest event T P E Q L).
    exists [line]; unfold decoded; simpl. rewrite L, Q. simpl.
    destruct (emits_only_dispatch event (events ++ [event])
                (set_event_log (event_log w ++ [event]) (set_stdout_queue rest w)))
      as [out D].
    pose proof (dispatch_outcome event (events ++ [event])
                  (set_event_log (event_log w ++ [event]) (set_stdout_queue rest w)))
      as O.
    rewrite D; simpl. repeat split.
    destruct (fst (dispatch event (events ++ [event]) _)) as [[evs|ok evs]|e];
      intuition.
Qed.

(** The passes that ran, the lines they took from the queue, and the one
    order in which those lines show in the queue, in the log and in the
    events handed back. *)
Lemma loop_trace (sched : list tick) :
  forall events w,
  exists ran rest consumed,
    sched = ran ++ rest /\
    arrived ran (stdout_queue w) =
      consumed ++ stdout_queue (snd (loop sched events w)) /\
    event_log (snd (loop sched events w)) = event_log w ++ decoded consumed /\
    match fst (loop sched events w) with
    | Returned _ evs => evs = events ++ decoded consumed
    | Waiting evs => evs = events ++ decoded consumed /\ rest = []
    | Raised _ => True
    end.
Proof.
  induction sched as [|tk sched IH]; intros events w.
  - exists [], [], []; simpl. rewrite !app_nil_r. auto.
  - simpl. destruct (body_trace events (happen tk w)) as (taken & Q & L & V).
    rewrite stdout_queue_happen in Q. rewrite event_log_happen in L.
    destruct (body events (happen tk w)) as [[[evs|ok evs]|e] w1]; simpl in *.
    + destruct (IH evs w1) as (ran & rest & consumed & S & Q' & L' & V').
      exists (tk :: ran), rest, (taken ++ consumed). repeat split.
      * simpl; congruence.
      * rewrite arrived_cons, Q, arrived_app, Q'. apply app_assoc.
      * rewrite L', L, decoded_app. symmetry; apply app_assoc.
      * destruct (fst (loop sched evs w1)); auto;
          [|destruct V' as [V' ->]; split; auto];
          rewrite V', V, decoded_app; symmetry; apply app_assoc.
    + exists [tk], sched, taken. repeat split; auto.
    + exists [tk], sched, taken. repeat split; auto.
Qed.

Lemma arrived_snoc (ticks : list tick) (tk : tick) (q : list pystr) :
  arrived (ticks ++ [tk]) q =
  fold_left reader_put (t_lines tk) (arrived ticks q).
Proof. unfold arrived. rewrite fold_left_app. reflexivity. Qed.

(** While the loop is still turning, every pass so far was in time. *)
Lemma waiting_timely (pre : list tick) :
  forall events w events' w',
    loop pre events w = (Waiting events', w') ->
    Forall (fun tk => Qle_bool (t_clock tk - start_time) timeout = true) pre.
Proof.
  induction pre as [|tk pre IH]; intros events w events' w' H; [constructor|].
  simpl in H.
  assert (T : timely (happen tk w) = true).
  { destruct (timely (happen tk w)) eqn:T; [reflexivity|exfalso].
    destruct (process (happen tk w)) as [p|] eqn:P.
    - rewrite (body_timeout _ _ _ _ _ p T P) in H. discriminate.
    - rewrite (body_timeout_unstarted _ _ _ _ _ T P) in H. discriminate. }
  constructor; [exact T|].
  destruct (body events (happen tk w)) as [[[evs|ok evs]|e] w1];
    try discriminate.
  eapply IH; eassumption.
Qed.

(** The pass on which a call succeeds. *)
Lemma success_inv (sched : list tick) :
  forall events w events' w',
    loop sched events w = (Returned true events', w') ->
    exists pre tk post evs1 w1 p line rest event,
      sched = pre ++ tk :: post /\
      loop pre events w = (Waiting evs1, w1) /\
      timely (happen tk w1) = true /\
      process (happen tk w1) = Some p /\ exit_status p = None /\
      stdout_queue (happen tk w1) = line :: rest /\
      json_loads line = Ok event /\ is_result event = true /\
      events' = evs1 ++ [event] /\
      stdout_queue w' = rest /\
      event_log w' = event_log w1 ++ [event].
Proof.
  induction sched as [|tk sched IH]; intros events w events' w' H;
    [discriminate|].
  simpl in H.
  destruct (body events (happen tk w)) as [[[evs|ok evs]|e] w2] eqn:B;
    try discriminate.
  - destruct (IH _ _ _ _ H)
      as (pre & tk' & post & evs1 & w1 & p & line & rest & event & S & W & R).
    exists (tk :: pre), tk', post, evs1, w1, p, line, rest, event.
    split; [simpl; congruence|]. split; [simpl; rewrite B; exact W|exact R].
  - inversion H; subst; clear H.
    destruct (pass_cases json_loads timeout start_time (happen tk w))
      as [p T P|T P|T P|p code T P E|p T P E Q|p line rest T P E Q L
          |p line rest e T P E Q L NE|p line rest event T P E Q L].
    + rewrite (body_timeout _ _ _ _ _ p T P) in B; discriminate.
    + rewrite (body_timeout_unstarted _ _ _ _ _ T P) in B; discriminate.
    + rewrite (body_unstarted _ _ _ _ _ T P) in B; discriminate.
    + rewrite (body_exited _ _ _ _ _ p code T P E) in B; discriminate.
    + rewrite (body_empty _ _ _ _ _ p T P E Q) in B; discriminate.
    + rewrite (body_non_json _ _ _ _ _ p line rest T P E Q L) in B;
        discriminate.
    + rewrite (body_loads_raises _ _ _ _ _ p line rest e T P E Q L NE) in B;
        discriminate.
    + rewrite (body_event _ _ _ _ _ p line rest event T P E Q L) in B.
      pose proof (dispatch_outcome event (events ++ [event])
                    (set_event_log (event_log (happen tk w) ++ [event])
                       (set_stdout_queue rest (happen tk w)))) as O.
      destruct (emits_only_dispatch event (events ++ [event])
                  (set_event_log (event_log (happen tk w) ++ [event])
                     (set_stdout_queue rest (happen tk w)))) as [out D].
      rewrite B in O, D; simpl in O, D. destruct O as (_ & -> & R).
      exists [], tk, sched, events, w, p, line, rest, event.
      subst w'. repeat split; auto.
Qed.

(** A result line at the head of the queue, on a pass that is in time
    and finds the child running, ends the call in success. *)
Lemma success_intro (pre post : list tick) (tk : tick) (events evs1 : list json)
      (w w1 : world) (p : popen) (line : pystr) (rest : list pystr)
      (event : json) :
  loop pre events w = (Waiting evs1, w1) ->
  timely (happen tk w1) = true ->
  process (happen tk w1) = Some p -> exit_status p = None ->
  stdout_queue (happen tk w1) = line :: rest ->
  json_loads line = Ok event -> is_result event = true ->
  exists out,
    loop (pre ++ tk :: post) events w =
    (Returned true (evs1 ++ [event]),
     set_emitted (emitted w1 ++ out)
       (set_event_log (event_log w1 ++ [event])
          (set_stdout_queue rest (happen tk w1)))).
Proof.
  intros W T P E Q L R. rewrite loop_app, W. simpl.
  rewrite (body_event _ _ _ _ _ p line rest event T P E Q L).
  destruct (dispatch_result event (evs1 ++ [event])
              (set_event_log (event_log (happen tk w1) ++ [event])
                 (set_stdout_queue rest (happen tk w1))) R) as [out D].
  rewrite D. exists out. reflexivity.
Qed.

(** A pass that is in time and finds the child gone ends the call in
    failure, whatever the queue holds. *)
Lemma exit_intro (pre post : list tick) (tk : tick) (events evs1 : list json)
      (w w1 : world) (p : popen) (code : Z) :
  loop pre events w = (Waiting evs1, w1) ->
  timely (happen tk w1) = true ->
  process (happen tk w1) = Some p -> exit_status p = Some code ->
  loop (pre ++ tk :: post) events w =
  (Returned false evs1,
   set_emitted (emitted w1 ++ [Log ERROR (MsgExited code)]) (happen tk w1)).
Proof.
  intros W T P E. rewrite loop_app, W. simpl.
  rewrite (body_exited _ _ _ _ _ p code T P E). reflexivity.
Qed.

End Loop.

(** ** Properties of [wait_for_result] *)

Lemma is_result_spec (event : json) :
  is_result event = true <->
  exists fields,
    event = JObj fields /\ assoc (U "type") fields = Some (JStr (U "result")).
Proof.
  split.
  - destruct event as [| | | | | |fields]; try discriminate. simpl.
    destruct (assoc (U "type") fields) as [v|] eqn:A; [|discriminate].
    intros R. apply is_str_eq in R. subst v. eauto.
  - intros (fields & -> & A). simpl. rewrite A. reflexivity.
Qed.

Lemma wait_for_result_loop (json_loads : pystr -> result json) (timeout : Q)
      (sched : list tick) (w : world) :
  wait_for_result json_loads timeout sched w =
  wait_loop json_loads timeout (clock w) sched []
    (set_emitted (emitted w ++ [Log INFO MsgWaiting]) w).
Proof. reflexivity. Qed.

Lemma within_in_time (timeout start_time : Q) (tk : tick) (w : world) :
  within timeout start_time tk <->
  in_time timeout start_time (happen tk w) = true.
Proof. unfold within, in_time. rewrite clock_happen. symmetry. apply Qle_bool_iff. Qed.

(** C1. A call of [wait_for_result] returns success exactly when, on some
    pass that the loop reaches still waiting, with the deadline check passed
    on every pass so far and the liveness poll finding the child running,
    the line taken from the primary queue parses to an event of type
    ["result"].  And when on a pass the poll finds the child gone, the call
    returns failure even if a result line is at the head of the queue; the
    line stays there. *)
Theorem wait_success_iff (json_loads : pystr -> result json) (timeout : Q)
        (sched : list tick) (w : world) :
  ((exists events w',
       wait_for_result json_loads timeout sched w = (Returned true events, w'))
   <->
   (exists pre tk post events w1 p line rest,
       sched = pre ++ tk :: post /\
       wait_for_result json_loads timeout pre w = (Waiting events, w1) /\
       Forall (within timeout (clock w)) (pre ++ [tk]) /\
       process (happen tk w1) = Some p /\ exit_status p = None /\
       stdout_queue (happen tk w1) = line :: rest /\
       result_line json_loads line))
  /\
  (forall pre tk post events w1 p code line rest,
      wait_for_result json_loads timeout pre w = (Waiting events, w1) ->
      within timeout (clock w) tk ->
      process (happen tk w1) = Some p -> exit_status p = Some code ->
      stdout_queue (happen tk w1) = line :: rest ->
      result_line json_loads line ->
      exists w',
        wait_for_result json_loads timeout (pre ++ tk :: post) w =
        (Returned false events, w') /\
        stdout_queue w' = line :: rest).
Proof.
  split; [split|].
  - intros (events & w' & H). rewrite wait_for_result_loop in H.
    destruct (success_inv _ _ _ _ _ _ _ _ H)
      as (pre & tk & post & evs1 & w1 & p & line & rest & event
          & S & W & T & P & E & Q & L & R & _).
    exists pre, tk, post, evs1, w1, p, line, rest.
    repeat split; auto.
    + apply Forall_app. split.
      * apply waiting_timely in W. revert W. apply Forall_impl.
        intros a. apply Qle_bool_iff.
      * constructor; [|constructor]. eapply within_in_time; exact T.
    + apply is_result_spec in R. destruct R as (fields & -> & A).
      exists fields; auto.
  - intros (pre & tk & post & evs1 & w1 & p & line & rest
            & -> & W & T & P & E & Q & fields & L & A).
    rewrite wait_for_result_loop in *.
    apply Forall_app in T. destruct T as [_ T]. inversion T as [|? ? T' _]; subst.
    destruct (success_intro json_loads timeout (clock w) pre post tk [] evs1 _ w1 p
                line rest (JObj fields) W) as [out D]; auto.
    + eapply within_in_time; exact T'.
    + apply is_result_spec; eauto.
    + rewrite D; eauto.
  - intros pre tk post events w1 p code line rest W T P E Q _.
    rewrite wait_for_result_loop in *.
    rewrite (exit_intro json_loads timeout (clock w) pre post tk [] events _ w1 p
               code W); auto.
    + eexists; split; [reflexivity|exact Q].
    + eapply within_in_time; exact T.
Qed.

(** C10. A call that returns success returns a non-empty list whose last
    element is the result event; the line of that event is the last line
    the call took from the queue, and every line that came after it is
    still queued when the call returns. *)
Theorem success_ends_at_result (json_loads : pystr -> result json) (timeout : Q)
        (sched : list tick) (w : world) (events : list json) (w' : world) :
  wait_for_result json_loads timeout sched w = (Returned true events, w') ->
  exists earlier fields line ran rest consumed,
    events = earlier ++ [JObj fields] /\
    assoc (U "type") fields = Some (JStr (U "result")) /\
    json_loads line = Ok (JObj fields) /\
    sched = ran ++ rest /\
    arrived ran (stdout_queue w) = consumed ++ line :: stdout_queue w' /\
    events = decoded json_loads (consumed ++ [line]).
Proof.
  intros H. rewrite wait_for_result_loop in H.
  destruct (success_inv _ _ _ _ _ _ _ _ H)
    as (pre & tk & post & evs1 & w1 & p & line & rest & event
        & S & W & T & P & E & Q & L & R & V & Q' & _).
  apply is_result_spec in R. destruct R as (fields & -> & A).
  destruct (loop_trace json_loads timeout (clock w) pre []
              (set_emitted (emitted w ++ [Log INFO MsgWaiting]) w))
    as (ran & rest0 & consumed & S0 & Q0 & _ & V0).
  rewrite W in Q0, V0. simpl in Q0, V0. destruct V0 as [-> ->].
  rewrite app_nil_r in S0. subst ran.
  exists (decoded json_loads consumed), fields, line, (pre ++ [tk]), post, consumed.
  repeat split; auto.
  - rewrite S, <- app_assoc. reflexivity.
  - rewrite arrived_snoc, Q0, reader_puts_app.
    rewrite stdout_queue_happen in Q. rewrite Q, Q'. reflexivity.
  - rewrite V, decoded_app. unfold decoded at 3. simpl. rewrite L. reflexivity.
Qed.

Lemma unrecognized_classify (fields : list (pystr * json)) (events : list json) :
  unrecognized fields ->
  classify (JObj fields) (type_of fields) events = ret (Continue events).
Proof.
  unfold unrecognized, type_of. intros Un.
  assert (N : forall tag, In tag recognized ->
                is_str (match assoc (U "type") fields with
                        | Some v => v
                        | None => JNull
                        end) tag = false).
  { intros tag I. destruct (assoc (U "type") fields) as [v|]; [|reflexivity].
    destruct (is_str v tag) eqn:S; [|reflexivity].
    apply is_str_eq in S. destruct (Un tag I S). }
  unfold classify.
  rewrite !N by (unfold recognized; simpl; tauto). reflexivity.
Qed.

(** C2, as the code has it.  When, on a pass that is in time, the liveness
    poll finds the child gone, the call returns the failure [(False, events)]
    with the events collected so far; the exit code goes to the error log and
    is no part of the returned value; nothing is taken from the queue and
    nothing is added to the event log on that pass. *)
Theorem wait_exit_detected (json_loads : pystr -> result json) (timeout : Q)
        (pre post : list tick) (tk : tick) (events : list json) (w w1 : world)
        (p : popen) (code : Z) :
  wait_for_result json_loads timeout pre w = (Waiting events, w1) ->
  within timeout (clock w) tk ->
  process (happen tk w1) = Some p -> exit_status p = Some code ->
  wait_for_result json_loads timeout (pre ++ tk :: post) w =
  (Returned false events,
   set_emitted (emitted w1 ++ [Log ERROR (MsgExited code)]) (happen tk w1)).
Proof.
  intros W T P E. rewrite wait_for_result_loop in *.
  apply (exit_intro json_loads timeout (clock w) pre post tk [] events _ w1 p
           code W); auto.
  eapply within_in_time; exact T.
Qed.

(** C4. A line that parses to a [dict] whose ["type"] is missing or unknown:
    the pass takes the line, appends the event as it is to [events] and to
    the event log, logs nothing, and the loop goes on to its next pass;
    whatever the call returns later holds the event. *)
Theorem unrecognized_event_kept (json_loads : pystr -> result json)
        (timeout start_time : Q) (tk : tick) (sched : list tick)
        (events : list json) (w : world) (p : popen) (line : pystr)
        (rest : list pystr) (fields : list (pystr * json)) :
  within timeout start_time tk ->
  process (happen tk w) = Some p -> exit_status p = None ->
  stdout_queue (happen tk w) = line :: rest ->
  json_loads line = Ok (JObj fields) ->
  unrecognized fields ->
  let w' := set_event_log (event_log w ++ [JObj fields])
              (set_stdout_queue rest (happen tk w)) in
  loop_body json_loads timeout start_time events (happen tk w) =
    (Ok (Continue (events ++ [JObj fields])), w') /\
  wait_loop json_loads timeout start_time (tk :: sched) events w =
    wait_loop json_loads timeout start_time sched (events ++ [JObj fields]) w' /\
  (forall ok evs w'',
      wait_loop json_loads timeout start_time (tk :: sched) events w =
        (Returned ok evs, w'') ->
      In (JObj fields) evs /\ In (JObj fields) (event_log w'')).
Proof.
  intros T P E Q L Un w'.
  assert (B : loop_body json_loads timeout start_time events (happen tk w) =
              (Ok (Continue (events ++ [JObj fields])), w')).
  { rewrite (body_event _ _ _ _ _ p line rest (JObj fields)); auto.
    - rewrite dispatch_dict, unrecognized_classify by exact Un. reflexivity.
    - eapply within_in_time; exact T. }
  split; [exact B|]. split; [simpl; rewrite B; reflexivity|].
  intros ok evs w'' H. simpl in H. rewrite B in H.
  destruct (loop_trace json_loads timeout start_time sched
              (events ++ [JObj fields]) w')
    as (ran & rest' & consumed & _ & _ & Lg & V).
  rewrite H in Lg, V. simpl in Lg, V. subst evs. rewrite Lg.
  split; apply in_or_app; left; apply in_or_app; right; left; reflexivity.
Qed.


(** ** The senders *)

Ltac run_send :=
  cbv beta iota delta
    [send_raw try_except stdin_write stdin_flush bind ret raise read modify
     logger self_process Popen_poll update_process exn_eqb].

Lemma send_raw_unstarted (payload_str : pystr) (w : world) :
  process w = None ->
  send_raw payload_str w =
  (Ok false, set_emitted (emitted w ++ [Log ERROR MsgNotRunning]) w).
Proof. intros P. run_send. repeat (simpl; rewrite ?P). reflexivity. Qed.

Lemma send_raw_exited (payload_str : pystr) (w : world) (p : popen) (code : Z) :
  process w = Some p -> exit_status p = Some code ->
  send_raw payload_str w =
  (Ok false, set_emitted (emitted w ++ [Log ERROR MsgNotRunning]) w).
Proof. intros P E. run_send. repeat (simpl; rewrite ?P, ?E). reflexivity. Qed.

Lemma encodable_app (a b : pystr) :
  encodable (a ++ b) = encodable a && encodable b.
Proof. apply forallb_app. Qed.

Lemma encodable_line (s : pystr) : encodable (s ++ newline) = encodable s.
Proof. rewrite encodable_app. apply andb_true_r. Qed.

Lemma send_raw_unencodable (payload_str : pystr) (w : world) (p : popen) :
  process w = Some p -> exit_status p = None ->
  encodable payload_str = false ->
  send_raw payload_str w =
  (Exc UnicodeEncodeError,
   set_emitted (emitted w ++ [Log INFO (MsgInject payload_str)]) w).
Proof.
  intros P E C. rewrite <- encodable_line in C.
  run_send. repeat (simpl; rewrite ?P, ?E, ?C). reflexivity.
Qed.

Lemma send_raw_broken (payload_str : pystr) (w : world) (p : popen) :
  process w = Some p -> exit_status p = None ->
  encodable payload_str = true -> broken (stdin p) = true ->
  send_raw payload_str w =
  (Ok false,
   set_emitted (emitted w ++ [Log INFO (MsgInject payload_str);
                              Log ERROR MsgBrokenPipe]) w).
Proof.
  intros P E C B. rewrite <- encodable_line in C.
  run_send. repeat (simpl; rewrite ?P, ?E, ?B, ?C).
  rewrite <- app_assoc. reflexivity.
Qed.

Lemma send_raw_ok (payload_str : pystr) (w : world) (p : popen) :
  process w = Some p -> exit_status p = None ->
  encodable payload_str = true -> broken (stdin p) = false ->
  send_raw payload_str w =
  (Ok true,
   set_process (Some (fed (payload_str ++ newline) p))
     (set_emitted (emitted w ++ [Log INFO (MsgInject payload_str)]) w)).
Proof.
  intros P E C B. rewrite <- encodable_line in C.
  run_send. repeat (simpl; rewrite ?P, ?E, ?B, ?C).
  unfold fed. reflexivity.
Qed.

Lemma send_cases (payload_str : pystr) (w : world) : send_view payload_str w.
Proof.
  destruct (process w) as [p|] eqn:P; [|apply SendUnstarted; exact P].
  destruct (exit_status p) as [code|] eqn:E; [eapply SendExited; eassumption|].
  destruct (encodable payload_str) eqn:C;
    [|eapply SendUnencodable; eassumption].
  destruct (broken (stdin p)) eqn:B;
    [eapply SendBroken | eapply SendOk]; eassumption.
Qed.






(** *** The line [send_message] writes *)












(** ** [stop] *)

Ltac run_stop :=
  cbv beta iota delta
    [stop Popen_terminate Popen_wait advance bind ret raise read modify
     self_process Popen_poll update_process].

Lemma stop_unstarted (w : world) :
  process w = None -> stop w = (Ok tt, set_running false w).
Proof. intros P. run_stop. repeat (simpl; rewrite ?P). reflexivity. Qed.

Lemma stop_exited (w : world) (p : popen) (code : Z) :
  process w = Some p -> exit_status p = Some code ->
  stop w = (Ok tt, set_running false w).
Proof. intros P E. run_stop. repeat (simpl; rewrite ?P, ?E). reflexivity. Qed.

Lemma stop_killed (w : world) (p : popen) (d : Q) (code : Z) :
  process w = Some p -> exit_status p = None ->
  on_sigterm p = Some (d, code) -> Qle_bool d 5 = true ->
  stop w =
  (Ok tt,
   set_process (Some (set_exit_status (Some code) (signalled p)))
     (set_clock (clock w + d) (set_running false w))).
Proof.
  intros P E S D. destruct w, p; simpl in *; subst.
  run_stop. simpl. rewrite D. reflexivity.
Qed.

Lemma stop_timeout (w : world) (p : popen) :
  process w = Some p -> exit_status p = None ->
  match on_sigterm p with
  | Some (d, _) => Qle_bool d 5 = false
  | None => True
  end ->
  stop w =
  (Exc TimeoutExpired,
   set_clock (clock w + 5)
     (set_process (Some (signalled p)) (set_running false w))).
Proof.
  intros P E S. destruct w, p as [status input signals answer]; simpl in *; subst.
  run_stop. simpl.
  destruct answer as [[d c]|]; [rewrite S|]; reflexivity.
Qed.

Lemma stop_cases (w : world) : stop_view w.
Proof.
  destruct (process w) as [p|] eqn:P; [|apply StopUnstarted; exact P].
  destruct (exit_status p) as [code|] eqn:E; [eapply StopExited; eassumption|].
  destruct (on_sigterm p) as [[d c]|] eqn:S.
  - destruct (Qle_bool d 5) eqn:D.
    + eapply StopKilled; eassumption.
    + eapply StopTimeout; try eassumption. rewrite S. exact D.
  - eapply StopTimeout; try eassumption. rewrite S. exact I.
Qed.

(** C9. [stop] clears the running flag in every state.  On a child that is
    running it sends one terminate signal and blocks no longer than the grace
    period of five seconds: the child has exited when it returns, and it
    raises [TimeoutExpired] at the end of the period otherwise.  On a wrapper
    that was never started or whose child has exited it does nothing but
    clear the flag, and raises nothing; once [stop] has returned, a second
    [stop] changes nothing; and [stop; stop] ends as [stop] does. *)
Theorem stop_idempotent (w : world) :
  running (snd (stop w)) = false
  /\
  (forall p, process w = Some p -> exit_status p = None ->
     exists p',
       process (snd (stop w)) = Some p' /\
       sigterm p' = S (sigterm p) /\
       (clock (snd (stop w)) <= clock w + 5)%Q /\
       (fst (stop w) = Ok tt /\ exit_status p' <> None \/
        fst (stop w) = Exc TimeoutExpired /\ exit_status p' = None /\
        clock (snd (stop w)) = (clock w + 5)%Q))
  /\
  (match process w with
   | None => True
   | Some p => exit_status p <> None
   end -> stop w = (Ok tt, set_running false w))
  /\
  (fst (stop w) = Ok tt -> stop (snd (stop w)) = (Ok tt, snd (stop w)))
  /\
  (stop ;; stop) w = stop w.
Proof.
  destruct (stop_cases w) as [P|p code P E|p d code P E S D|p P E S].
  - rewrite (stop_unstarted w P). simpl.
    split; [reflexivity|]. split; [intros p' P'; congruence|].
    split; [reflexivity|].
    assert (R : stop (set_running false w) = (Ok tt, set_running false w))
      by (rewrite stop_unstarted; auto).
    split; [intros _; exact R|].
    unfold bind. rewrite (stop_unstarted w P). exact R.
  - rewrite (stop_exited w p code P E). simpl.
    split; [reflexivity|]. split; [intros p' P' E'; congruence|].
    split; [reflexivity|].
    assert (R : stop (set_running false w) = (Ok tt, set_running false w))
      by (rewrite (stop_exited _ p code); auto).
    split; [intros _; exact R|].
    unfold bind. rewrite (stop_exited w p code P E). exact R.
  - rewrite (stop_killed w p d code P E S D). simpl.
    split; [reflexivity|]. split.
    { intros p0 P0 _. rewrite P in P0. inversion P0; subst p0.
      eexists. split; [reflexivity|]. simpl. split; [reflexivity|].
      apply Qle_bool_iff in D. split; [lra|]. left. split; [reflexivity|discriminate]. }
    split; [rewrite P, E; intros N; congruence|].
    assert (R : forall w2,
               w2 = set_process (Some (set_exit_status (Some code) (signalled p)))
                      (set_clock (clock w + d) (set_running false w)) ->
               stop w2 = (Ok tt, w2)).
    { intros w2 ->.
      rewrite (stop_exited _ (set_exit_status (Some code) (signalled p)) code);
        reflexivity. }
    split; [intros _; apply R; reflexivity|].
    unfold bind. rewrite (stop_killed w p d code P E S D). apply R; reflexivity.
  - rewrite (stop_timeout w p P E S). simpl.
    split; [reflexivity|]. split.
    { intros p0 P0 _. rewrite P in P0. inversion P0; subst p0.
      eexists. split; [reflexivity|]. simpl. split; [reflexivity|].
      split; [lra|]. right. rewrite E. auto. }
    split; [rewrite P, E; intros N; congruence|].
    split; [discriminate|].
    unfold bind. rewrite (stop_timeout w p P E S). reflexivity.
Qed.

(** ** The event log *)

Lemma send_raw_keeps_log (payload_str : pystr) (w : world) :
  event_log (snd (send_raw payload_str w)) = event_log w.
Proof.
  destruct (send_cases payload_str w)
    as [P|p code P E|p P E C|p P E C B|p P E C B].
  - rewrite (send_raw_unstarted _ _ P). reflexivity.
  - rewrite (send_raw_exited _ _ p code P E). reflexivity.
  - rewrite (send_raw_unencodable _ _ p P E C). reflexivity.
  - rewrite (send_raw_broken _ _ p P E C B). reflexivity.
  - rewrite (send_raw_ok _ _ p P E C B). reflexivity.
Qed.

Lemma stop_keeps_log (w : world) : event_log (snd (stop w)) = event_log w.
Proof.
  destruct (stop_cases w) as [P|p code P E|p d code P E S D|p P E S].
  - rewrite (stop_unstarted w P). reflexivity.
  - rewrite (stop_exited w p code P E). reflexivity.
  - rewrite (stop_killed w p d code P E S D). reflexivity.
  - rewrite (stop_timeout w p P E S). reflexivity.
Qed.

Lemma check_status_keeps_log (w : world) :
  event_log (snd (check_status w)) = event_log w.
Proof.
  unfold check_status; run_m. destruct (process w) as [p|]; [|reflexivity].
  simpl. destruct (exit_status p); reflexivity.
Qed.

(** C8. Whatever way a call of [wait_for_result] ends, the events it added
    to the session's log are the events of the lines it took from the
    primary queue, in the order the reader thread put the lines there, and
    the list it hands back (on success, on timeout and on process exit alike)
    is that same list.  No method takes anything off the log or reorders it:
    [wait_for_result] only appends, the other methods leave it alone. *)
Theorem event_log_append_only (json_loads : pystr -> result json) (timeout : Q)
        (sched : list tick) (w : world) :
  (exists ran rest consumed,
      sched = ran ++ rest /\
      arrived ran (stdout_queue w) =
        consumed ++ stdout_queue (snd (wait_for_result json_loads timeout sched w)) /\
      event_log (snd (wait_for_result json_loads timeout sched w)) =
        event_log w ++ decoded json_loads consumed /\
      forall ok events,
        fst (wait_for_result json_loads timeout sched w) = Returned ok events ->
        events = decoded json_loads consumed)
  /\ (forall payload_str, event_log (snd (send_raw payload_str w)) = event_log w)
  /\ (forall text, event_log (snd (send_message text w)) = event_log w)
  /\ event_log (snd (check_status w)) = event_log w
  /\ event_log (snd (stop w)) = event_log w
  /\ (forall mode child, event_log (snd (start mode child w)) = event_log w).
Proof.
  split.
  - rewrite wait_for_result_loop.
    destruct (loop_trace json_loads timeout (clock w) sched []
                (set_emitted (emitted w ++ [Log INFO MsgWaiting]) w))
      as (ran & rest & consumed & S & Q & L & V).
    exists ran, rest, consumed. repeat split; auto.
    intros ok events R. rewrite R in V. exact V.
  - split; [intros; apply send_raw_keeps_log|].
    split; [intros; apply send_raw_keeps_log|].
    split; [apply check_status_keeps_log|].
    split; [apply stop_keeps_log|reflexivity].
Qed.

(** ** Error events *)

(** X1. A pass that takes the line of an error event: the event goes to
    [events] and to the event log; the error is logged and the loop goes on
    when the ["error"] field is missing or a [dict], and [AttributeError]
    leaves the call when it is anything else. *)
Theorem error_event_pass (json_loads : pystr -> result json)
      (timeout start_time : Q) (tk : tick) (events : list json) (w : world)
      (p : popen) (line : pystr) (rest : list pystr)
      (fields : list (pystr * json)) :
  within timeout start_time tk ->
  process (happen tk w) = Some p -> exit_status p = None ->
  stdout_queue (happen tk w) = line :: rest ->
  json_loads line = Ok (JObj fields) ->
  assoc (U "type") fields = Some (JStr (U "error")) ->
  let w' := set_event_log (event_log w ++ [JObj fields])
              (set_stdout_queue rest (happen tk w)) in
  loop_body json_loads timeout start_time events (happen tk w) =
  match err_msg_of fields with
  | Some err_msg =>
      (Ok (Continue (events ++ [JObj fields])),
       set_emitted (emitted w ++ [Log ERROR (MsgErrorEvent err_msg)]) w')
  | None => (Exc AttributeError, w')
  end.
Proof.
  intros T P E Q L Ty w'.
  rewrite (body_event _ _ _ _ _ p line rest (JObj fields)); auto;
    [|eapply within_in_time; exact T].
  rewrite dispatch_dict. unfold type_of, err_msg_of. rewrite Ty.
  unfold classify. simpl.
  unfold dict_get, get_method, bind, ret, raise, logger, modify. simpl.
  destruct (assoc (U "error") fields) as [[| | | | | |err]|]; reflexivity.
Qed.

(** C3, at the failing input.  The child writes
    [{"type": "error", "error": "boom"}] and then a result: the call takes
    the error line, appends its event to the log, and ends in
    [AttributeError]; it neither goes on to the result line nor returns. *)
Theorem error_event_string_raises (post : list tick) :
  let sched := mkTick 1 [raw line_error_str; raw (line_of_type "result")] None
               :: post in
  decode line_error_str =
    Ok (JObj [(U "type", JStr (U "error")); (U "error", JStr (U "boom"))]) /\
  fst (wait_for_result decode 60 sched live_world) = Raised AttributeError /\
  event_log (snd (wait_for_result decode 60 sched live_world)) =
    [JObj [(U "type", JStr (U "error")); (U "error", JStr (U "boom"))]] /\
  stdout_queue (snd (wait_for_result decode 60 sched live_world)) =
    [line_of_type "result"].
Proof. repeat split; vm_compute; reflexivity. Qed.

(** ** The deadline *)

(** X2. A pass that finds the deadline passed ends the call in failure with
    the events collected so far, after logging the state of the child; the
    queue and the event log stay as they are. *)
Theorem timeout_intro (json_loads : pystr -> result json) (timeout : Q)
      (pre post : list tick) (tk : tick) (events : list json) (w w1 : world)
      (p : popen) :
  wait_for_result json_loads timeout pre w = (Waiting events, w1) ->
  ~ within timeout (clock w) tk ->
  process (happen tk w1) = Some p ->
  wait_for_result json_loads timeout (pre ++ tk :: post) w =
  (Returned false events,
   set_emitted ((emitted w1 ++ [Log ERROR MsgTimeout]) ++ [status_record p])
     (happen tk w1)).
Proof.
  intros W T P. rewrite wait_for_result_loop in *.
  rewrite loop_app, W. simpl.
  rewrite (body_timeout _ _ _ _ _ p); auto.
  destruct (in_time timeout (clock w) (happen tk w1)) eqn:I; [|reflexivity].
  exfalso. apply T. eapply within_in_time; exact I.
Qed.

Lemma loop_ends (json_loads : pystr -> result json) (timeout start_time : Q)
      (sched : list tick) :
  Exists (fun tk => Qle_bool (t_clock tk - start_time) timeout = false) sched ->
  forall events w events',
    fst (wait_loop json_loads timeout start_time sched events w) <> Waiting events'.
Proof.
  induction 1 as [tk sched Late|tk sched _ IH]; intros events w events'; simpl.
  - assert (T : in_time timeout start_time (happen tk w) = false) by exact Late.
    destruct (process (happen tk w)) as [p|] eqn:P.
    + rewrite (body_timeout _ _ _ _ _ p T P). discriminate.
    + rewrite (body_timeout_unstarted _ _ _ _ _ T P). discriminate.
  - destruct (loop_body json_loads timeout start_time events (happen tk w))
      as [[[evs|ok evs]|e] w1]; [apply IH | discriminate | discriminate].
Qed.

(** X3. The call does not wait for ever: once the schedule holds a pass
    whose clock reading is past the deadline, the call has returned or
    raised. *)
Theorem wait_ends_by_deadline (json_loads : pystr -> result json) (timeout : Q)
        (sched : list tick) (w : world) :
  Exists (fun tk => ~ within timeout (clock w) tk) sched ->
  exists w',
    (exists ok events,
        wait_for_result json_loads timeout sched w = (Returned ok events, w')) \/
    (exists e, wait_for_result json_loads timeout sched w = (Raised e, w')).
Proof.
  intros Late. rewrite wait_for_result_loop.
  pose proof (loop_ends json_loads timeout (clock w) sched) as Ends.
  assert (L : Exists (fun tk => Qle_bool (t_clock tk - clock w) timeout = false)
                sched).
  { revert Late. apply Exists_impl. intros tk N.
    destruct (Qle_bool (t_clock tk - clock w) timeout) eqn:B; [|reflexivity].
    exfalso. apply N. apply Qle_bool_iff. exact B. }
  specialize (Ends L [] (set_emitted (emitted w ++ [Log INFO MsgWaiting]) w)).
  destruct (wait_loop json_loads timeout (clock w) sched []
              (set_emitted (emitted w ++ [Log INFO MsgWaiting]) w))
    as [[ok events|e|events] w'].
  - exists w'. left. eauto.
  - exists w'. right. eauto.
  - exfalso. apply (Ends events). reflexivity.
Qed.

(** ** Examples *)

(** The sample run succeeds on its second pass, where the result line is
    taken. *)
Lemma wait_success_iff_witness :
  exists events w',
    wait_for_result decode 60 sample_ticks live_world = (Returned true events, w').
Proof.
  apply (proj1 (wait_success_iff decode 60 sample_ticks live_world)).
  exists [mkTick 1 [raw (line_of_type "status"); raw (line_of_type "result");
                    raw (line_of_type "later")] None],
         (mkTick 2 [] None), [mkTick 3 [] None].
  eexists. eexists. eexists. eexists. eexists.
  split; [reflexivity|].
  split; [vm_compute; reflexivity|].
  split; [repeat constructor; unfold within; simpl; lra|].
  split; [vm_compute; reflexivity|].
  split; [reflexivity|].
  split; [vm_compute; reflexivity|].
  exists [(U "type", JStr (U "result"))]. split; vm_compute; reflexivity.
Defined.

(** The sample run returns the status and the result event; the line printed
    after the result is still queued. *)
Lemma success_ends_at_result_witness :
  wait_for_result decode 60 sample_ticks live_world =
    (Returned true [status_event; result_event],
     snd (wait_for_result decode 60 sample_ticks live_world)) /\
  stdout_queue (snd (wait_for_result decode 60 sample_ticks live_world)) =
    [line_of_type "later"] /\
  exists earlier fields line ran rest consumed,
    [status_event; result_event] = earlier ++ [JObj fields] /\
    assoc (U "type") fields = Some (JStr (U "result")) /\
    decode line = Ok (JObj fields) /\
    sample_ticks = ran ++ rest /\
    arrived ran (stdout_queue live_world) =
      consumed ++ line ::
      stdout_queue (snd (wait_for_result decode 60 sample_ticks live_world)) /\
    [status_event; result_event] = decoded decode (consumed ++ [line]).
Proof.
  split; [vm_compute; reflexivity|]. split; [vm_compute; reflexivity|].
  apply (success_ends_at_result decode 60 sample_ticks live_world).
  vm_compute; reflexivity.
Defined.

(** C2, the claim as written fails: the value returned on process exit is
    the same whatever the exit code, so the code cannot be read off it. *)
Lemma exit_code_not_returned :
  fst (wait_for_result decode 60 [exit_tick 1] live_world) = Returned false [] /\
  fst (wait_for_result decode 60 [exit_tick 2] live_world) = Returned false [] /\
  ~ exists code_of : outcome -> Z,
      forall code,
        code_of (fst (wait_for_result decode 60 [exit_tick code] live_world)) = code.
Proof.
  split; [vm_compute; reflexivity|]. split; [vm_compute; reflexivity|].
  intros [code_of H].
  pose proof (H 1) as H1. pose proof (H 2) as H2.
  vm_compute in H1, H2. rewrite H1 in H2. discriminate.
Qed.

(** A child that exits with status 7: the call fails, and 7 is in the log. *)
Lemma wait_exit_detected_witness :
  wait_for_result decode 60 [exit_tick 7] live_world =
  (Returned false [],
   set_emitted (emitted live_world ++ [Log INFO MsgWaiting; Log ERROR (MsgExited 7)])
     (happen (exit_tick 7) live_world)).
Proof.
  apply (wait_exit_detected decode 60 [] [] (exit_tick 7) [] live_world
           (set_emitted (emitted live_world ++ [Log INFO MsgWaiting]) live_world)
           (set_exit_status (Some 7) fresh_child) 7).
  - reflexivity.
  - unfold within; simpl; lra.
  - reflexivity.
  - reflexivity.
Defined.

(** An event of type ["system"] is kept and the pass goes on. *)
Lemma unrecognized_event_kept_witness :
  let event := JObj [(U "type", JStr (U "system"))] in
  let tk := line_tick (line_of_type "system") in
  loop_body decode 60 0 [] (happen tk live_world) =
  (Ok (Continue [event]),
   set_event_log [event] (set_stdout_queue [] (happen tk live_world))).
Proof.
  intros event tk.
  refine (proj1 (unrecognized_event_kept decode 60 0 tk [] [] live_world
                   fresh_child (line_of_type "system") []
                   [(U "type", JStr (U "system"))] _ _ _ _ _ _)).
  - unfold within; simpl; lra.
  - reflexivity.
  - reflexivity.
  - reflexivity.
  - vm_compute; reflexivity.
  - intros tag I. simpl in I.
    repeat (destruct I as [<-|I]; [discriminate|]). destruct I.
Defined.




(** C6, the claim as written fails: [send_raw] with a lone surrogate on a
    running child whose pipe is broken raises; so it does when the pipe
    works. *)
Lemma send_raw_surrogate_raises :
  unreachable deaf_world /\
  send_raw lone_surrogate deaf_world =
    (Exc UnicodeEncodeError,
     set_emitted (emitted deaf_world ++ [Log INFO (MsgInject lone_surrogate)])
       deaf_world) /\
  fst (send_raw lone_surrogate live_world) = Exc UnicodeEncodeError.
Proof.
  split; [right; reflexivity|]. split; reflexivity.
Qed.


(** [stop] on the started wrapper, once and twice. *)
Lemma stop_idempotent_witness :
  (stop ;; stop) live_world = stop live_world /\
  stop (snd (stop live_world)) = (Ok tt, snd (stop live_world)) /\
  running (snd (stop live_world)) = false.
Proof.
  pose proof (stop_idempotent live_world) as (R & _ & _ & Again & Twice).
  split; [exact Twice|]. split; [apply Again; reflexivity | exact R].
Defined.

(** The log after the sample run, and after [stop]. *)
Lemma event_log_append_only_witness :
  event_log (snd (wait_for_result decode 60 sample_ticks live_world)) =
    event_log live_world ++ [status_event; result_event] /\
  event_log (snd (stop live_world)) = event_log live_world.
Proof.
  pose proof (event_log_append_only decode 60 sample_ticks live_world)
    as (_ & _ & _ & _ & St & _).
  split; [vm_compute; reflexivity | exact St].
Defined.

(** An error event whose ["error"] is a [dict] with a message. *)
Lemma error_event_pass_witness :
  let tk := line_tick line_error_obj in
  let event := JObj [(U "type", JStr (U "error"));
                     (U "error", JObj [(U "message", JStr (U "boom"))])] in
  loop_body decode 60 0 [] (happen tk live_world) =
  (Ok (Continue [event]),
   set_emitted (emitted live_world ++ [Log ERROR (MsgErrorEvent (JStr (U "boom")))])
     (set_event_log [event] (set_stdout_queue [] (happen tk live_world)))).
Proof.
  intros tk event.
  refine (error_event_pass decode 60 0 tk [] live_world fresh_child
            line_error_obj []
            [(U "type", JStr (U "error"));
             (U "error", JObj [(U "message", JStr (U "boom"))])] _ _ _ _ _ _).
  - unfold within; simpl; lra.
  - reflexivity.
  - reflexivity.
  - reflexivity.
  - vm_compute; reflexivity.
  - reflexivity.
Defined.

(** A first pass at 61 seconds into a call with a timeout of 60. *)
Lemma timeout_intro_witness :
  wait_for_result decode 60 [mkTick 61 [] None] live_world =
  (Returned false [],
   set_emitted (emitted live_world ++
                [Log INFO MsgWaiting; Log ERROR MsgTimeout; Log INFO MsgAlive])
     (happen (mkTick 61 [] None) live_world)).
Proof.
  refine (timeout_intro decode 60 [] [] (mkTick 61 [] None) [] live_world
            (set_emitted (emitted live_world ++ [Log INFO MsgWaiting]) live_world)
            fresh_child _ _ _).
  - reflexivity.
  - unfold within; simpl; lra.
  - reflexivity.
Defined.

(** An error event, no result, and the clock passing the deadline. *)
Lemma wait_ends_by_deadline_witness :
  exists w',
    (exists ok events,
        wait_for_result decode 60
          [line_tick line_error_obj; mkTick 61 [] None] live_world =
        (Returned ok events, w')) \/
    (exists e,
        wait_for_result decode 60
          [line_tick line_error_obj; mkTick 61 [] None] live_world =
        (Raised e, w')).
Proof.
  apply wait_ends_by_deadline.
  apply Exists_cons_tl. apply Exists_cons_hd. unfold within; simpl; lra.
Defined.

(** * The rest of the script *)

(** ** [check_status] and the senders *)






(** ** What [wait_for_result] leaves alone *)

Lemma happen_bystanders (tk : tick) (w : world) :
  bystanders (happen tk w) = bystanders w.
Proof.
  unfold bystanders, happen, child_exit. simpl.
  destruct (process w) as [p|]; [|reflexivity].
  simpl. destruct (exit_status p); reflexivity.
Qed.

Lemma body_bystanders (json_loads : pystr -> result json)
      (timeout start_time : Q) (events : list json) (w : world) :
  bystanders (snd (loop_body json_loads timeout start_time events w)) =
  bystanders w.
Proof.
  destruct (pass_cases json_loads timeout start_time w)
    as [p T P|T P|T P|p code T P E|p T P E Q|p line rest T P E Q L
        |p line rest e T P E Q L NE|p line rest event T P E Q L].
  - rewrite (body_timeout _ _ _ _ _ p T P). reflexivity.
  - rewrite (body_timeout_unstarted _ _ _ _ _ T P). reflexivity.
  - rewrite (body_unstarted _ _ _ _ _ T P). reflexivity.
  - rewrite (body_exited _ _ _ _ _ p code T P E). reflexivity.
  - rewrite (body_empty _ _ _ _ _ p T P E Q). reflexivity.
  - rewrite (body_non_json _ _ _ _ _ p line rest T P E Q L).
    unfold warn_non_json. destruct (truthy (strip line)); reflexivity.
  - rewrite (body_loads_raises _ _ _ _ _ p line rest e T P E Q L NE).
    reflexivity.
  - rewrite (body_event _ _ _ _ _ p line rest event T P E Q L).
    destruct (emits_only_dispatch event (events ++ [event])
                (set_event_log (event_log w ++ [event]) (set_stdout_queue rest w)))
      as [out D].
    rewrite D. reflexivity.
Qed.

Lemma loop_bystanders (json_loads : pystr -> result json)
      (timeout start_time : Q) (sched : list tick) :
  forall events w,
    bystanders (snd (wait_loop json_loads timeout start_time sched events w)) =
    bystanders w.
Proof.
  induction sched as [|tk sched IH]; intros events w; [reflexivity|].
  simpl.
  pose proof (body_bystanders json_loads timeout start_time events (happen tk w))
    as B.
  rewrite happen_bystanders in B.
  destruct (loop_body json_loads timeout start_time events (happen tk w))
    as [[[evs|ok evs]|e] w1]; simpl in B; simpl; try exact B.
  rewrite IH. exact B.
Qed.

(** X5. However it ends, a call of [wait_for_result] has not written to the
    input pipe of the child, has sent it no signal, and has left the session
    identifier, the flag [running] and the queue of the diagnostic stream as
    they were. *)
Theorem wait_keeps_bystanders (json_loads : pystr -> result json) (timeout : Q)
        (sched : list tick) (w : world) :
  bystanders (snd (wait_for_result json_loads timeout sched w)) = bystanders w.
Proof.
  rewrite wait_for_result_loop, loop_bystanders. reflexivity.
Qed.

(** X6. [wait_for_result] on a wrapper that was never started raises
    [AttributeError] on its first pass, before or after the deadline: there
    is no process to poll.  Nothing is taken from the queue and the event log
    stays as it is. *)
Theorem wait_unstarted_raises (json_loads : pystr -> result json) (timeout : Q)
        (tk : tick) (sched : list tick) (w : world) :
  process w = None ->
  exists records,
    wait_for_result json_loads timeout (tk :: sched) w =
    (Raised AttributeError, set_emitted (emitted w ++ records) (happen tk w)).
Proof.
  intros P. rewrite wait_for_result_loop. simpl.
  set (w0 := set_emitted (emitted w ++ [Log INFO MsgWaiting]) w).
  assert (P0 : process (happen tk w0) = None).
  { unfold w0. simpl. rewrite P. reflexivity. }
  destruct (in_time timeout (clock w) (happen tk w0)) eqn:T.
  - rewrite (body_unstarted _ _ _ _ _ T P0).
    exists [Log INFO MsgWaiting]. reflexivity.
  - rewrite (body_timeout_unstarted _ _ _ _ _ T P0).
    exists [Log INFO MsgWaiting; Log ERROR MsgTimeout].
    unfold w0. simpl. rewrite <- app_assoc. reflexivity.
Qed.

(** A wrapper fresh from [__init__], and a line waiting in vain. *)
Lemma wait_unstarted_raises_witness :
  fst (wait_for_result decode 60 [line_tick (line_of_type "result")]
         (init None (U "u4") 0)) = Raised AttributeError.
Proof.
  destruct (wait_unstarted_raises decode 60 (line_tick (line_of_type "result"))
              [] (init None (U "u4") 0) eq_refl) as [records R].
  rewrite R. reflexivity.
Defined.

(** X7. Two calls of [wait_for_result] in a row share the stream without loss
    and without overlap: the lines the first call took come first, the lines
    the second took follow, what is left is still queued, each call hands
    back the events of its own lines, and the event log has grown by the one
    list and then the other. *)
Theorem waits_share_the_stream (json_loads : pystr -> result json)
        (t1 t2 : Q) (s1 s2 : list tick) (w w1 w2 : world)
        (ok1 ok2 : bool) (e1 e2 : list json) :
  wait_for_result json_loads t1 s1 w = (Returned ok1 e1, w1) ->
  wait_for_result json_loads t2 s2 w1 = (Returned ok2 e2, w2) ->
  exists ran1 rest1 ran2 rest2 c1 c2,
    s1 = ran1 ++ rest1 /\ s2 = ran2 ++ rest2 /\
    arrived ran2 (arrived ran1 (stdout_queue w)) = c1 ++ c2 ++ stdout_queue w2 /\
    e1 = decoded json_loads c1 /\ e2 = decoded json_loads c2 /\
    event_log w2 = event_log w ++ e1 ++ e2.
Proof.
  intros H1 H2. rewrite wait_for_result_loop in H1, H2.
  destruct (loop_trace json_loads t1 (clock w) s1 []
              (set_emitted (emitted w ++ [Log INFO MsgWaiting]) w))
    as (ran1 & rest1 & c1 & S1 & Q1 & L1 & V1).
  destruct (loop_trace json_loads t2 (clock w1) s2 []
              (set_emitted (emitted w1 ++ [Log INFO MsgWaiting]) w1))
    as (ran2 & rest2 & c2 & S2 & Q2 & L2 & V2).
  rewrite H1 in Q1, L1, V1. rewrite H2 in Q2, L2, V2. simpl in *.
  exists ran1, rest1, ran2, rest2, c1, c2. subst e1 e2.
  repeat split; auto.
  - rewrite Q1, arrived_app, Q2. reflexivity.
  - rewrite L2, L1. symmetry; apply app_assoc.
Qed.

(** The sample run, and a second call that finds the line printed after the
    first result and then the deadline. *)
Lemma waits_share_the_stream_witness :
  let w1 := snd (wait_for_result decode 60 sample_ticks live_world) in
  let s2 := [mkTick 4 [] None; mkTick 70 [] None] in
  exists ran1 rest1 ran2 rest2 c1 c2,
    sample_ticks = ran1 ++ rest1 /\ s2 = ran2 ++ rest2 /\
    arrived ran2 (arrived ran1 (stdout_queue live_world)) =
      c1 ++ c2 ++ stdout_queue (snd (wait_for_result decode 60 s2 w1)) /\
    [status_event; result_event] = decoded decode c1 /\
    [JObj [(U "type", JStr (U "later"))]] = decoded decode c2 /\
    event_log (snd (wait_for_result decode 60 s2 w1)) =
      event_log live_world ++ [status_event; result_event] ++
      [JObj [(U "type", JStr (U "later"))]].
Proof.
  intros w1 s2.
  apply (waits_share_the_stream decode 60 60 sample_ticks s2 live_world w1
           (snd (wait_for_result decode 60 s2 w1)) true false);
    vm_compute; reflexivity.
Defined.

(** ** Progress, tool and message events *)

Ltac run_dispatch :=
  cbv beta iota delta
    [dict_get get_method py_iter bind ret raise logger sys_stdout_write modify].

(** X8. A line that parses to a [dict] of type ["thinking"], ["status"] or
    ["tool_use"]: whatever else the event holds, the pass appends it to
    [events] and to the event log and goes on; it prints a dot for the first
    two and logs the name and the input of the tool for the third ([None]
    for a field that is missing). *)
Theorem progress_event_pass (json_loads : pystr -> result json)
        (timeout start_time : Q) (tk : tick) (events : list json) (w : world)
        (p : popen) (line : pystr) (rest : list pystr)
        (fields : list (pystr * json)) (tag : pystr) :
  within timeout start_time tk ->
  process (happen tk w) = Some p -> exit_status p = None ->
  stdout_queue (happen tk w) = line :: rest ->
  json_loads line = Ok (JObj fields) ->
  assoc (U "type") fields = Some (JStr tag) ->
  In tag [U "thinking"; U "status"; U "tool_use"] ->
  loop_body json_loads timeout start_time events (happen tk w) =
  (Ok (Continue (events ++ [JObj fields])),
   set_emitted
     (emitted w ++
      [if str_eqb tag (U "tool_use")
       then Log INFO (MsgToolUse
                        (match assoc (U "name") fields with
                         | Some v => v | None => JNull end)
                        (match assoc (U "input") fields with
                         | Some v => v | None => JNull end))
       else Stdout (U ".")])
     (set_event_log (event_log w ++ [JObj fields])
        (set_stdout_queue rest (happen tk w)))).
Proof.
  intros T P E Q L Ty I.
  rewrite (body_event _ _ _ _ _ p line rest (JObj fields)); auto;
    [|eapply within_in_time; exact T].
  rewrite dispatch_dict. unfold type_of. rewrite Ty.
  simpl in I. destruct I as [<-|[<-|[<-|[]]]]; reflexivity.
Qed.

(** A top-level tool call with a name and no input. *)
Lemma progress_event_pass_witness :
  let line := U "{" ++ quoted "type" ++ U ": " ++ quoted "tool_use" ++ U ", " ++
              quoted "name" ++ U ": " ++ quoted "Write" ++ U "}" in
  let event := JObj [(U "type", JStr (U "tool_use"));
                     (U "name", JStr (U "Write"))] in
  loop_body decode 60 0 [] (happen (line_tick line) live_world) =
  (Ok (Continue [event]),
   set_emitted
     (emitted live_world ++ [Log INFO (MsgToolUse (JStr (U "Write")) JNull)])
     (set_event_log [event]
        (set_stdout_queue [] (happen (line_tick line) live_world)))).
Proof.
  intros line event.
  refine (progress_event_pass decode 60 0 (line_tick line) [] live_world
            fresh_child line []
            [(U "type", JStr (U "tool_use")); (U "name", JStr (U "Write"))]
            (U "tool_use") _ _ _ _ _ _ _).
  - unfold within; simpl; lra.
  - reflexivity.
  - reflexivity.
  - reflexivity.
  - vm_compute; reflexivity.
  - reflexivity.
  - simpl; tauto.
Defined.

Lemma bind_ok {A B} (c : M A) (k : A -> M B) (w w1 : world) (a : A) :
  c w = (Ok a, w1) -> bind c k w = k a w1.
Proof. intros H. unfold bind. rewrite H. reflexivity. Qed.


(** The loop over the blocks of a message, when every block is a [dict]. *)
Lemma nested_blocks_logged (blocks : list json) :
  forallb is_dict blocks = true ->
  forall w,
    for_each blocks
      (fun block =>
         b_type <- dict_get block (U "type") JNull ;;
         if is_str b_type (U "tool_use") then
           name <- dict_get block (U "name") JNull ;;
           input <- dict_get block (U "input") JNull ;;
           logger INFO (MsgNestedToolUse name input)
         else ret tt) w =
    (Ok tt, set_emitted (emitted w ++ nested_records blocks) w).
Proof.
  induction blocks as [|block blocks IH]; intros D w.
  - simpl. unfold ret. destruct w; simpl. rewrite app_nil_r. reflexivity.
  - simpl in D. apply andb_true_iff in D. destruct D as [B D].
    destruct block as [| | | | | |fields]; try discriminate.
    simpl for_each.
    assert (S : (b_type <- dict_get (JObj fields) (U "type") JNull ;;
                 if is_str b_type (U "tool_use") then
                   name <- dict_get (JObj fields) (U "name") JNull ;;
                   input <- dict_get (JObj fields) (U "input") JNull ;;
                   logger INFO (MsgNestedToolUse name input)
                 else ret tt) w =
                (Ok tt, set_emitted (emitted w ++ nested_records [JObj fields]) w)).
    { run_dispatch. unfold nested_records, type_of. simpl.
      destruct (is_str match assoc (U "type") fields with
                       | Some v => v
                       | None => JNull
                       end (U "tool_use")); simpl;
        rewrite ?app_nil_r; try reflexivity;
        destruct w; simpl; rewrite ?app_nil_r; reflexivity. }
    rewrite (bind_ok _ _ _ _ _ S). rewrite (IH D).
    assert (N : nested_records (JObj fields :: blocks) =
                nested_records [JObj fields] ++ nested_records blocks).
    { unfold nested_records. apply (flat_map_app _ [JObj fields] blocks). }
    rewrite N. destruct w. unfold set_emitted.
    cbn [emitted session_id process stdout_queue stderr_queue running
         event_log clock].
    rewrite app_assoc. reflexivity.
Qed.

(** X9. A line that parses to an assistant or user event whose ["message"]
    is missing or a [dict], whose ["content"] is missing or a list, and whose
    blocks are all [dict]s: the pass appends the event, logs one record for
    each block of type ["tool_use"], in the order of the blocks, and goes
    on. *)
Theorem message_event_pass (json_loads : pystr -> result json)
        (timeout start_time : Q) (tk : tick) (events : list json) (w : world)
        (p : popen) (line : pystr) (rest : list pystr)
        (fields : list (pystr * json)) (tag : pystr) (blocks : list json) :
  within timeout start_time tk ->
  process (happen tk w) = Some p -> exit_status p = None ->
  stdout_queue (happen tk w) = line :: rest ->
  json_loads line = Ok (JObj fields) ->
  assoc (U "type") fields = Some (JStr tag) ->
  In tag [U "assistant"; U "user"] ->
  blocks_of fields = Some blocks ->
  forallb is_dict blocks = true ->
  loop_body json_loads timeout start_time events (happen tk w) =
  (Ok (Continue (events ++ [JObj fields])),
   set_emitted (emitted w ++ nested_records blocks)
     (set_event_log (event_log w ++ [JObj fields])
        (set_stdout_queue rest (happen tk w)))).
Proof.
  intros T P E Q L Ty I Bl D.
  rewrite (body_event _ _ _ _ _ p line rest (JObj fields)); auto;
    [|eapply within_in_time; exact T].
  rewrite dispatch_dict. unfold type_of. rewrite Ty.
  assert (C : forall w0,
             classify (JObj fields) (JStr tag) (events ++ [JObj fields]) w0 =
             (Ok (Continue (events ++ [JObj fields])),
              set_emitted (emitted w0 ++ nested_records blocks) w0)).
  { intros w0. simpl in I. unfold blocks_of in Bl.
    assert (K : classify (JObj fields) (JStr tag) (events ++ [JObj fields]) w0 =
                (msg <- dict_get (JObj fields) (U "message") (JObj []) ;;
                 content <- dict_get msg (U "content") (JArr []) ;;
                 items <- py_iter content ;;
                 for_each items
                   (fun block =>
                      b_type <- dict_get block (U "type") JNull ;;
                      if is_str b_type (U "tool_use") then
                        name <- dict_get block (U "name") JNull ;;
                        input <- dict_get block (U "input") JNull ;;
                        logger INFO (MsgNestedToolUse name input)
                      else ret tt) ;;
                 ret (Continue (events ++ [JObj fields]))) w0).
    { destruct I as [<-|[<-|[]]]; reflexivity. }
    rewrite K; clear K.
    assert (G : (msg <- dict_get (JObj fields) (U "message") (JObj []) ;;
                 content <- dict_get msg (U "content") (JArr []) ;;
                 py_iter content) w0 = (Ok blocks, w0)).
    { run_dispatch.
      destruct (assoc (U "message") fields) as [[| | | | | |msg]|];
        try discriminate; cbv beta iota.
      - destruct (assoc (U "content") msg) as [[| | | | |items|]|];
          try discriminate; inversion Bl; reflexivity.
      - inversion Bl; reflexivity. }
    unfold bind in G |- *.
    destruct (dict_get (JObj fields) (U "message") (JObj []) w0)
      as [[msg|e] wa]; [|discriminate].
    destruct (dict_get msg (U "content") (JArr []) wa)
      as [[content|e] wb]; [|discriminate].
    destruct (py_iter content wb) as [[items|e] wc]; inversion G; subst.
    rewrite (nested_blocks_logged _ D). reflexivity. }
  rewrite C. reflexivity.
Qed.

(** An assistant message with a tool call between two text blocks. *)
Lemma message_event_pass_witness :
  let blocks := [JObj [(U "type", JStr (U "text")); (U "text", JStr (U "I will"))];
                 JObj [(U "type", JStr (U "tool_use")); (U "name", JStr (U "Write"))];
                 JObj [(U "type", JStr (U "text")); (U "text", JStr (U " write"))]] in
  let event := JObj [(U "type", JStr (U "assistant"));
                     (U "message", JObj [(U "content", JArr blocks)])] in
  let tk := line_tick (json_dumps event) in
  loop_body decode 60 0 [] (happen tk live_world) =
  (Ok (Continue [event]),
   set_emitted
     (emitted live_world ++
      [Log INFO (MsgNestedToolUse (JStr (U "Write")) JNull)])
     (set_event_log [event] (set_stdout_queue [] (happen tk live_world)))).
Proof.
  intros blocks event tk.
  refine (message_event_pass decode 60 0 tk [] live_world fresh_child
            (json_dumps event) []
            [(U "type", JStr (U "assistant"));
             (U "message", JObj [(U "content", JArr blocks)])]
            (U "assistant") blocks _ _ _ _ _ _ _ _ _).
  - unfold within; simpl; lra.
  - reflexivity.
  - reflexivity.
  - vm_compute; reflexivity.
  - vm_compute; reflexivity.
  - reflexivity.
  - simpl; tauto.
  - reflexivity.
  - reflexivity.
Defined.

(** X10. A line that parses to an assistant or user event whose
    ["content"] is a non-empty string: the loop over the content draws the
    characters of the string, the first [block.get] finds no such method, and
    [AttributeError] leaves [wait_for_result]; the event has been appended to
    the event log by then. *)
Theorem message_string_content_raises (json_loads : pystr -> result json)
        (timeout start_time : Q) (tk : tick) (events : list json) (w : world)
        (p : popen) (line : pystr) (rest : list pystr)
        (fields msg : list (pystr * json)) (tag : pystr) (c : N) (s : pystr) :
  within timeout start_time tk ->
  process (happen tk w) = Some p -> exit_status p = None ->
  stdout_queue (happen tk w) = line :: rest ->
  json_loads line = Ok (JObj fields) ->
  assoc (U "type") fields = Some (JStr tag) ->
  In tag [U "assistant"; U "user"] ->
  assoc (U "message") fields = Some (JObj msg) ->
  assoc (U "content") msg = Some (JStr (c :: s)) ->
  loop_body json_loads timeout start_time events (happen tk w) =
  (Exc AttributeError,
   set_event_log (event_log w ++ [JObj fields])
     (set_stdout_queue rest (happen tk w))).
Proof.
  intros T P E Q L Ty I Ms Ct.
  rewrite (body_event _ _ _ _ _ p line rest (JObj fields)); auto;
    [|eapply within_in_time; exact T].
  rewrite dispatch_dict. unfold type_of. rewrite Ty.
  simpl in I.
  destruct I as [<-|[<-|[]]]; unfold classify;
    match goal with
    | |- (if ?b then _ else _) _ = _ => change b with false; cbv iota
    end;
    match goal with
    | |- (if ?b then _ else _) _ = _ => change b with false; cbv iota
    end;
    match goal with
    | |- (if ?b then _ else _) _ = _ => change b with true; cbv iota
    end;
    run_dispatch; rewrite Ms; cbv beta iota; rewrite Ct; reflexivity.
Qed.

(** A user message whose content is the plain string ["hi"]. *)
Lemma message_string_content_raises_witness :
  let event := JObj [(U "type", JStr (U "user"));
                     (U "message", JObj [(U "role", JStr (U "user"));
                                         (U "content", JStr (U "hi"))])] in
  let tk := line_tick (json_dumps event) in
  loop_body decode 60 0 [] (happen tk live_world) =
  (Exc AttributeError,
   set_event_log [event] (set_stdout_queue [] (happen tk live_world))).
Proof.
  intros event tk.
  refine (message_string_content_raises decode 60 0 tk [] live_world fresh_child
            (json_dumps event) []
            [(U "type", JStr (U "user"));
             (U "message", JObj [(U "role", JStr (U "user"));
                                 (U "content", JStr (U "hi"))])]
            [(U "role", JStr (U "user")); (U "content", JStr (U "hi"))]
            (U "user") 104%N (U "i") _ _ _ _ _ _ _ _ _).
  - unfold within; simpl; lra.
  - reflexivity.
  - reflexivity.
  - vm_compute; reflexivity.
  - vm_compute; reflexivity.
  - reflexivity.
  - simpl; tauto.
  - reflexivity.
  - reflexivity.
Defined.

(** ** The reader threads *)





(** ** The logger of the diagnostic stream *)

Lemma arrived_d_app (ticks : list dtick) (a q : list pystr) :
  arrived_d ticks (a ++ q) = a ++ arrived_d ticks q.
Proof.
  revert q; induction ticks as [|tk ticks IH]; intros q; [reflexivity|].
  unfold arrived_d in *; simpl. rewrite reader_puts_app. apply IH.
Qed.

Lemma arrived_d_cons (tk : dtick) (ticks : list dtick) (w : world) :
  arrived_d (tk :: ticks) (stderr_queue w) =
  arrived_d ticks (stderr_queue (dhappen tk w)).
Proof. reflexivity. Qed.

Lemma stderr_logger_cons (tk : dtick) (sched : list dtick)
      (logged : list pystr) (w : world) :
  stderr_logger (tk :: sched) logged w =
  if running (dhappen tk w) then
    match stderr_queue (dhappen tk w) with
    | line :: rest =>
        stderr_logger sched (logged ++ [line])
          (set_stderr_queue rest (dhappen tk w))
    | [] => stderr_logger sched logged (dhappen tk w)
    end
  else (Ended, logged, dhappen tk w).
Proof. reflexivity. Qed.

Lemma stderr_logger_trace (sched : list dtick) :
  forall logged w,
  exists ran rest taken,
    sched = ran ++ rest /\
    snd (fst (stderr_logger sched logged w)) = logged ++ taken /\
    arrived_d ran (stderr_queue w) =
      taken ++ stderr_queue (snd (stderr_logger sched logged w)) /\
    (List.length taken <= List.length ran)%nat /\
    stdout_queue (snd (stderr_logger sched logged w)) = stdout_queue w /\
    event_log (snd (stderr_logger sched logged w)) = event_log w /\
    process (snd (stderr_logger sched logged w)) = process w.
Proof.
  induction sched as [|tk sched IH]; intros logged w.
  - exists [], [], []. simpl. rewrite app_nil_r. repeat split; auto.
  - rewrite stderr_logger_cons. destruct (running (dhappen tk w)) eqn:R.
    + destruct (stderr_queue (dhappen tk w)) as [|line q] eqn:Q.
      * destruct (IH logged (dhappen tk w))
          as (ran & rest & taken & S & Lg & A & Len & F1 & F2 & F3).
        exists (tk :: ran), rest, taken.
        split; [simpl; congruence|]. split; [exact Lg|].
        split; [rewrite arrived_d_cons, Q; rewrite Q in A; exact A|].
        split; [simpl; lia|].
        split; [exact F1|]. split; [exact F2|exact F3].
      * destruct (IH (logged ++ [line]) (set_stderr_queue q (dhappen tk w)))
          as (ran & rest & taken & S & Lg & A & Len & F1 & F2 & F3).
        exists (tk :: ran), rest, (line :: taken).
        split; [simpl; congruence|].
        split; [rewrite Lg, <- app_assoc; reflexivity|].
        split.
        { rewrite arrived_d_cons, Q.
          change (line :: q) with ([line] ++ q).
          rewrite (arrived_d_app ran [line] q).
          change (stderr_queue (set_stderr_queue q (dhappen tk w))) with q in A.
          rewrite A. reflexivity. }
        split; [simpl; lia|].
        split; [exact F1|]. split; [exact F2|exact F3].
    + exists [tk], sched, []. simpl. rewrite app_nil_r.
      repeat split; auto.
Qed.

(** X12. The logger thread of the diagnostic stream logs the lines it takes
    from its queue in the order they were queued, at most one in a pass, and
    nothing else: it leaves the queue of the primary stream, the event log
    and the process alone, so no diagnostic line ever becomes an event.  Once
    [stop] has cleared the flag the thread ends on its next pass, and lines
    still in its queue, or arriving later, are never logged. *)
Theorem stderr_logger_drains (sched : list dtick) (w : world) :
  (exists ran rest taken,
      sched = ran ++ rest /\
      snd (fst (stderr_logger sched [] w)) = taken /\
      arrived_d ran (stderr_queue w) =
        taken ++ stderr_queue (snd (stderr_logger sched [] w)) /\
      (List.length taken <= List.length ran)%nat)
  /\
  stdout_queue (snd (stderr_logger sched [] w)) = stdout_queue w /\
  event_log (snd (stderr_logger sched [] w)) = event_log w /\
  process (snd (stderr_logger sched [] w)) = process w
  /\
  (forall before tk after,
      sched = before ++ tk :: after -> d_stop tk = true ->
      fst (fst (stderr_logger sched [] w)) = Ended /\
      snd (fst (stderr_logger sched [] w)) =
        snd (fst (stderr_logger (before ++ [tk]) [] w))).
Proof.
  destruct (stderr_logger_trace sched [] w)
    as (ran & rest & taken & S & Lg & A & Len & Q & L & P).
  split; [exists ran, rest, taken; auto|].
  split; [exact Q|]. split; [exact L|]. split; [exact P|].
  clear. intros before tk after -> Stop. revert w.
  generalize (@nil pystr) as logged.
  induction before as [|b before IH]; intros logged w.
  - simpl app. rewrite !stderr_logger_cons.
    assert (R : running (dhappen tk w) = false).
    { unfold dhappen. rewrite Stop. reflexivity. }
    rewrite R. split; reflexivity.
  - simpl app. rewrite !stderr_logger_cons.
    destruct (running (dhappen b w)); [|split; reflexivity].
    destruct (stderr_queue (dhappen b w)); apply IH.
Qed.

(** Two diagnostic lines, then [stop], then one more line. *)
Lemma stderr_logger_drains_witness :
  let sched := [mkDtick [raw (U "warn 1"); raw (U "warn 2")] false;
                mkDtick [] false;
                mkDtick [] true;
                mkDtick [raw (U "late")] false] in
  stderr_logger sched [] live_world =
    (Ended, [U "warn 1"; U "warn 2"],
     set_running false live_world) /\
  fst (fst (stderr_logger sched [] live_world)) = Ended.
Proof.
  intros sched. split; [reflexivity|].
  apply (proj2 (proj2 (proj2 (proj2 (stderr_logger_drains sched live_world))))
           [mkDtick [raw (U "warn 1"); raw (U "warn 2")] false; mkDtick [] false]
           (mkDtick [] true) [mkDtick [raw (U "late")] false]); reflexivity.
Defined.

(** ** The harness reads what the wait loop returned *)











(** ** The recall check *)

Lemma starts_with_spec (prefix s : pystr) :
  starts_with prefix s = true <-> exists rest, s = prefix ++ rest.
Proof.
  revert s; induction prefix as [|a prefix IH]; intros s; simpl.
  - split; [intros _; exists s; reflexivity | reflexivity].
  - destruct s as [|b s].
    + split; [discriminate | intros [rest H]; discriminate].
    + rewrite andb_true_iff, N.eqb_eq, IH. split.
      * intros [-> [rest ->]]. exists rest. reflexivity.
      * intros [rest H]. inversion H; subst. split; [reflexivity|eauto].
Qed.

(** [contains] is the substring test. *)
Lemma contains_spec (needle hay : pystr) :
  contains needle hay = true <-> exists a b, hay = a ++ needle ++ b.
Proof.
  induction hay as [|c hay IH].
  - simpl. rewrite orb_false_r, starts_with_spec. split.
    + intros [rest H]. exists [], rest. exact H.
    + intros (a & b & H). destruct a; [exists b; exact H|discriminate].
  - simpl contains. rewrite orb_true_iff, starts_with_spec, IH. split.
    + intros [[rest H]|(a & b & H)].
      * exists [], rest. exact H.
      * exists (c :: a), b. rewrite H. reflexivity.
    + intros (a & b & H). destruct a as [|c' a].
      * left. exists b. exact H.
      * right. inversion H; subst. exists a, b. reflexivity.
Qed.

(** X14. The check on the answer to the recall question comes down to its
    second half: the lower-cased text passes exactly when it holds ["hello"];
    asking for ["hello.py"] first adds nothing, so an answer that names any
    other file starting with hello passes too. *)
Theorem recalls_hello (lower : pystr -> pystr) (text : pystr) :
  recalls lower text = contains (U "hello") (lower text).
Proof.
  unfold recalls.
  destruct (contains (U "hello.py") (lower text)) eqn:C; [|reflexivity].
  symmetry. apply contains_spec. apply contains_spec in C.
  destruct C as (a & b & H). exists a, (U ".py" ++ b).
  rewrite H. reflexivity.
Qed.
